(** * cloudflarebp: the CloudFlare bypass round tripper

    A shallow embedding of [round_tripper.go] (package [cloudflarebp]) and
    the properties of its header merge, its TLS set-up and its wrapping
    function.

    Go values are modelled as the program has them: maps, pointers and
    slices live in an explicit heap, since [map[string]string],
    [*http.Transport] and [*tls.Config] are references; a run-time panic
    is an outcome of its own; the visiting order of a [range] over a map,
    which Go leaves unspecified, is an input of the model. *)

From Stdlib Require Import Ascii String.
From stdpp Require Import gmap strings list fin_maps.

Local Open Scope string_scope.

(** ** net/textproto: canonical header keys

    [http.Header.Set] stores under [textproto.CanonicalMIMEHeaderKey key].
    The Go documentation of that function: the canonicalization converts
    the first letter and any letter following a hyphen to upper case; the
    rest are converted to lowercase; if the key contains a space or
    invalid header field bytes, it is returned without modifications. *)

Module textproto.

(** Byte ranges used by the canonicalization, on the byte's code. *)
Definition isLower (c : ascii) : bool :=
  ((97 <=? nat_of_ascii c) && (nat_of_ascii c <=? 122))%nat.

Definition isUpper (c : ascii) : bool :=
  ((65 <=? nat_of_ascii c) && (nat_of_ascii c <=? 90))%nat.

Definition isDigit (c : ascii) : bool :=
  ((48 <=? nat_of_ascii c) && (nat_of_ascii c <=? 57))%nat.

(** [const toLower = 'a' - 'A'] *)
Definition toLower : nat := 32.

(** The other [tchar]s of RFC 7230:
    ! # $ % & ' * + - . ^ _ ` | ~ (by code). *)
Definition tcharPunct : list nat :=
  [33; 35; 36; 37; 38; 39; 42; 43; 45; 46; 94; 95; 96; 124; 126].

(** [validHeaderFieldByte]: a byte of an RFC 7230 token. *)
Definition validHeaderFieldByte (c : ascii) : bool :=
  isLower c || isUpper c || isDigit c
  || existsb (Nat.eqb (nat_of_ascii c)) tcharPunct.

Definition isDash (c : ascii) : bool := Nat.eqb (nat_of_ascii c) 45.

(** One byte of the canonicalization loop: upper case where [upper] is
    set, lower case elsewhere. *)
Definition canonByte (upper : bool) (c : ascii) : ascii :=
  if upper && isLower c then ascii_of_nat (nat_of_ascii c - toLower)
  else if negb upper && isUpper c then ascii_of_nat (nat_of_ascii c + toLower)
  else c.

(** The loop of [canonicalMIMEHeaderKey]: [upper] is true at the start
    and after each dash. *)
Fixpoint canonLoop (upper : bool) (a : string) : string :=
  match a with
  | EmptyString => EmptyString
  | String c rest =>
      let c' := canonByte upper c in
      String c' (canonLoop (isDash c') rest)
  end.

Fixpoint allValid (s : string) : bool :=
  match s with
  | EmptyString => true
  | String c rest => validHeaderFieldByte c && allValid rest
  end.

Definition CanonicalMIMEHeaderKey (s : string) : string :=
  if allValid s then canonLoop true s else s.

End textproto.

Abbreviation canon := textproto.CanonicalMIMEHeaderKey.

(** ** The Go run time: outcomes, the heap

    A call either returns or panics.  [InvalidAddress] is the fault of
    following an address the heap does not hold; Go pointers never dangle,
    so no Go execution reaches it. *)

Inductive panic : Set :=
| NilPointerDereference
| IndexOutOfRange
| NilMapAssignment
| InvalidAddress.

Inductive Outcome (A : Type) : Type :=
| Ok (a : A)
| Panic (p : panic).

Arguments Ok {A} a.
Arguments Panic {A} p.

Definition loc : Set := positive.

(** ** crypto/tls *)

Module tls.

(** [type CurveID uint16], with the IANA numbers Go gives the curves. *)
Definition CurveID : Set := Z.
Definition CurveP256 : CurveID := 23%Z.
Definition CurveP384 : CurveID := 24%Z.
Definition CurveP521 : CurveID := 25%Z.
Definition X25519 : CurveID := 29%Z.

(** The fields of [tls.Config] the model keeps: the curve preferences the
    program sets, and settings a caller typically has on a client
    configuration. *)
Record Config : Set := mkConfig {
  CurvePreferences : list CurveID;
  InsecureSkipVerify : bool;
  ServerName : string;
  MinVersion : Z;
  MaxVersion : Z;
  NextProtos : list string
}.

(** A composite literal leaves every field it does not name at its zero
    value. *)
Definition zeroConfig : Config :=
  {| CurvePreferences := []; InsecureSkipVerify := false; ServerName := "";
     MinVersion := 0; MaxVersion := 0; NextProtos := [] |}.

Definition withCurvePreferences (cs : list CurveID) (c : Config) : Config :=
  {| CurvePreferences := cs;
     InsecureSkipVerify := InsecureSkipVerify c;
     ServerName := ServerName c;
     MinVersion := MinVersion c;
     MaxVersion := MaxVersion c;
     NextProtos := NextProtos c |}.

End tls.

(** ** net/http *)

Module http.

(** [type Header map[string][]string].  A request that reaches a round
    tripper carries an allocated header map ([http.Client] makes one when
    the caller left it nil, and [http.Transport] rejects a request without
    one), so the map is held by value in the request. *)
Abbreviation Header := (gmap string (list string)).

(** [h.Set(key, value)]: [h[CanonicalMIMEHeaderKey(key)] = []string{value}]. *)
Definition Header_Set (h : Header) (key value : string) : Header :=
  <[textproto.CanonicalMIMEHeaderKey key := [value]]> h.

Record Request : Type := mkRequest {
  Method : string;
  URL : string;
  Header_ : Header;
  Body : string
}.

Definition withHeader (hd : Header) (r : Request) : Request :=
  {| Method := Method r; URL := URL r; Header_ := hd; Body := Body r |}.

Record Response : Type := mkResponse {
  StatusCode : Z;
  RespHeader : Header;
  RespBody : string
}.

(** [*http.Transport]: the TLS slot is a [*tls.Config], nil or a pointer;
    the other fields stand for the transport's settings that are not TLS. *)
Record Transport : Set := mkTransport {
  TLSClientConfig : option loc;
  DisableKeepAlives : bool;
  DisableCompression : bool;
  MaxIdleConns : Z
}.

Definition zeroTransport : Transport :=
  {| TLSClientConfig := None; DisableKeepAlives := false;
     DisableCompression := false; MaxIdleConns := 0 |}.

Definition withTLSClientConfig (c : option loc) (t : Transport) : Transport :=
  {| TLSClientConfig := c;
     DisableKeepAlives := DisableKeepAlives t;
     DisableCompression := DisableCompression t;
     MaxIdleConns := MaxIdleConns t |}.

End http.

(** Go's [error] value, by its message; a reply is the pair of a
    [*http.Response] and an [error] that [RoundTrip] returns. *)
Definition error : Set := string.
Definition Reply : Type := (option http.Response * option error)%type.

(** The heap: the objects behind [*tls.Config], [*http.Transport] and
    [map[string]string] references. *)
Record Heap : Type := mkHeap {
  tlsConfigs : gmap loc tls.Config;
  transports : gmap loc http.Transport;
  stringMaps : gmap loc (gmap string string)
}.

Definition emptyHeap : Heap :=
  {| tlsConfigs := ∅; transports := ∅; stringMaps := ∅ |}.

(** ** The state-and-panic monad of Go statements *)

Definition M (A : Type) : Type := Heap → Outcome (A * Heap).

Definition ret {A} (a : A) : M A := λ h, Ok (a, h).

Definition bind {A B} (c : M A) (k : A → M B) : M B :=
  λ h, match c h with
       | Ok (a, h') => k a h'
       | Panic p => Panic p
       end.

Definition throw {A} (p : panic) : M A := λ _, Panic p.

Global Instance M_ret : MRet M := @ret.
Global Instance M_bind : MBind M := λ A B k c, bind c k.

(** [&tls.Config{...}] *)
Definition newConfig (c : tls.Config) : M loc :=
  λ h, let l := fresh (dom (tlsConfigs h)) in
       Ok (l, {| tlsConfigs := <[l := c]> (tlsConfigs h);
                 transports := transports h;
                 stringMaps := stringMaps h |}).

(** [&http.Transport{...}] *)
Definition newTransport (t : http.Transport) : M loc :=
  λ h, let l := fresh (dom (transports h)) in
       Ok (l, {| tlsConfigs := tlsConfigs h;
                 transports := <[l := t]> (transports h);
                 stringMaps := stringMaps h |}).

(** [map[string]string{...}] *)
Definition newStringMap (m : gmap string string) : M loc :=
  λ h, let l := fresh (dom (stringMaps h)) in
       Ok (l, {| tlsConfigs := tlsConfigs h;
                 transports := transports h;
                 stringMaps := <[l := m]> (stringMaps h) |}).

(** Reading through a [*http.Transport]. *)
Definition readTransport (p : option loc) : M http.Transport :=
  λ h, match p with
       | None => Panic NilPointerDereference
       | Some a => match transports h !! a with
                   | Some t => Ok (t, h)
                   | None => Panic InvalidAddress
                   end
       end.

(** [trans.TLSClientConfig = c] through a [*http.Transport]. *)
Definition setTLSClientConfig (trans : option loc) (c : option loc) : M unit :=
  λ h, match trans with
       | None => Panic NilPointerDereference
       | Some a => match transports h !! a with
                   | Some t =>
                       Ok (tt, {| tlsConfigs := tlsConfigs h;
                                  transports :=
                                    <[a := http.withTLSClientConfig c t]> (transports h);
                                  stringMaps := stringMaps h |})
                   | None => Panic InvalidAddress
                   end
       end.

(** The entries a [range] over a [map[string]string] reference visits: none
    for the nil map. *)
Definition readStringMap (m : option loc) : M (gmap string string) :=
  λ h, match m with
       | None => Ok (∅, h)
       | Some l => match stringMaps h !! l with
                   | Some entries => Ok (entries, h)
                   | None => Panic InvalidAddress
                   end
       end.

(** The TLS configuration a transport of the heap points to. *)
Definition transportTLS (h : Heap) (a : loc) : option tls.Config :=
  t ← transports h !! a; c ← http.TLSClientConfig t; tlsConfigs h !! c.

(** ** round_tripper.go *)

(** [type Options struct]: [Headers] is a map reference, nil or the address
    of the map. *)
Record Options : Set := mkOptions {
  AddMissingHeaders : bool;
  Headers : option loc
}.

(** An [http.RoundTripper] interface value, by its dynamic type: the nil
    interface, a [*http.Transport] (a pointer, which may itself be nil), a
    [*cloudFlareRoundTripper], or a value of any other implementation, given
    by what its [RoundTrip] does to the request and what it replies.
    [cloudFlareRoundTripper] is the struct of the source. *)
Inductive RoundTripper : Type :=
| nilRoundTripper
| transportPtr (trans : option loc)
| cloudFlarePtr (ug : cloudFlareRoundTripper)
| otherRoundTripper (impl : http.Request → http.Request * Reply)
with cloudFlareRoundTripper : Type :=
| mkCloudFlareRoundTripper (inner : RoundTripper) (options : Options).

Definition inner (ug : cloudFlareRoundTripper) : RoundTripper :=
  match ug with mkCloudFlareRoundTripper i _ => i end.

Definition options (ug : cloudFlareRoundTripper) : Options :=
  match ug with mkCloudFlareRoundTripper _ o => o end.

(** [ug.inner == nil] *)
Definition isNil (rt : RoundTripper) : bool :=
  match rt with nilRoundTripper => true | _ => false end.

(** [getCloudFlareTLSConfiguration]: a new [tls.Config] with only the curve
    preferences set. *)
Definition cloudFlareCurves : list tls.CurveID :=
  [tls.CurveP256; tls.CurveP384; tls.CurveP521; tls.X25519].

Definition getCloudFlareTLSConfiguration : M loc :=
  newConfig (tls.withCurvePreferences cloudFlareCurves tls.zeroConfig).

(** [GetDefaultOptions]: the map literal makes a new map at each call. *)
Definition defaultHeaders : gmap string string :=
  <["Accept" := "text/html,application/xhtml+xml,application/xml;q=0.9,image/webp,image/apng,*/*;q=0.8"]>
  (<["Accept-Language" := "en-US,en;q=0.5"]>
  (<["User-Agent" := "Mozilla/5.0 (Windows NT 10.0; Win64; x64) AppleWebKit/537.36 (KHTML, like Gecko) Chrome/127.0.0.0 Safari/537.36 Edg/127.0.0.0"]>
   ∅)).

Definition GetDefaultOptions : M Options :=
  m ← newStringMap defaultHeaders;
  mret {| AddMissingHeaders := true; Headers := Some m |}.

(** [AddCloudFlareByPass(inner, options...)].  The variadic parameter is a
    slice: nil ([None]) when the call passes no option, otherwise the slice
    of the options passed, which a call [f(inner, s...)] may make empty. *)
Definition AddCloudFlareByPass
    (inner : RoundTripper) (options : option (list Options)) : M RoundTripper :=
  match inner with
  | transportPtr trans =>
      cfg ← getCloudFlareTLSConfiguration;
      setTLSClientConfig trans (Some cfg)
  | _ => mret tt
  end;;
  opts ← match options with
         | Some s =>
             match s with
             | o :: _ => mret o
             | [] => throw IndexOutOfRange
             end
         | None => GetDefaultOptions
         end;
  mret (cloudFlarePtr (mkCloudFlareRoundTripper inner opts)).

(** *** RoundTrip *)

(** The body of the [range] loop: set the header unless the request's map
    has the key. *)
Definition addMissingHeader
    (hd : http.Header) (entry : string * string) : http.Header :=
  match hd !! entry.1 with
  | Some _ => hd
  | None => http.Header_Set hd entry.1 entry.2
  end.

(** Go visits the entries of a map in an order it does not specify, which
    may differ between two loops over the same map.  The order is an input:
    [choice] is followed when it enumerates the map, and the enumeration
    [map_to_list] is taken when it does not, so that every input gives a run
    of the loop and every run comes from an input. *)
Definition rangeOrder
    (choice : list (string * string)) (m : gmap string string)
    : list (string * string) :=
  if decide (choice ≡ₚ map_to_list m) then choice else map_to_list m.

(** Lines 45 to 51: the header merge. *)
Definition mergeHeaders
    (o : Options) (choice : list (string * string)) (r : http.Request)
    : M http.Request :=
  if AddMissingHeaders o then
    m ← readStringMap (Headers o);
    mret (http.withHeader
            (foldl addMissingHeader (http.Header_ r) (rangeOrder choice m)) r)
  else mret r.

Section RoundTrip.

(** What the [RoundTrip] of [*http.Transport] does with a request: the network. The
    transport reads its TLS configuration from the heap. *)
Variable transportRoundTrip :
  Heap → http.Transport → http.Request → http.Request * Reply.

(** The round trip of a transport, in the heap of the call. *)
Definition Transport_RoundTrip
    (t : http.Transport) (r : http.Request) : M (http.Request * Reply) :=
  λ h, Ok (transportRoundTrip h t r, h).

(** [(&http.Transport{TLSClientConfig: getCloudFlareTLSConfiguration()}).RoundTrip(r)] *)
Definition fallbackRoundTrip (r : http.Request) : M (http.Request * Reply) :=
  cfg ← getCloudFlareTLSConfiguration;
  p ← newTransport (http.withTLSClientConfig (Some cfg) http.zeroTransport);
  t ← readTransport (Some p);
  Transport_RoundTrip t r.

(** [(ug *cloudFlareRoundTripper) RoundTrip(r)], with [call] the method call
    through the interface; [choices] gives the visiting order of the loop
    of this decorator and of the decorators below it. *)
Definition cloudFlareRoundTripper_RoundTrip
    (call : RoundTripper → list (list (string * string)) → http.Request
            → M (http.Request * Reply))
    (ug : cloudFlareRoundTripper) (choices : list (list (string * string)))
    (r : http.Request) : M (http.Request * Reply) :=
  r' ← mergeHeaders (options ug) (hd [] choices) r;
  if isNil (inner ug) then fallbackRoundTrip r'
  else call (inner ug) (tl choices) r'.

(** [rt.RoundTrip(r)] on an interface value. *)
Fixpoint RoundTrip
    (rt : RoundTripper) (choices : list (list (string * string)))
    (r : http.Request) {struct rt} : M (http.Request * Reply) :=
  match rt with
  | nilRoundTripper => throw NilPointerDereference
  | transportPtr trans =>
      t ← readTransport trans;
      Transport_RoundTrip t r
  | otherRoundTripper impl => mret (impl r)
  | cloudFlarePtr ug =>
      cloudFlareRoundTripper_RoundTrip RoundTrip ug choices r
  end.

End RoundTrip.

(** The difference two runs of the loop may still have at key [c], with
    [l] left to visit: none; or a configured name that both runs will
    write; or the name itself, which one run has set and the other will. *)
Definition settles
    (l : list (string * string)) (a b : http.Header) (c : string) : Prop :=
  a !! c = b !! c
  ∨ (∃ k v, (k, v) ∈ l ∧ textproto.CanonicalMIMEHeaderKey k = c ∧ textproto.CanonicalMIMEHeaderKey k ≠ k ∧ a !! k = None)
  ∨ (∃ v, (c, v) ∈ l ∧ b !! c = None ∧ a !! c = Some [v]).

(** *** Mutation of a map by its holder

    [m[key] = value] through a map reference, as a caller that holds an
    [Options] value may do; assignment to an entry of the nil map panics. *)
Definition assignStringMap (m : option loc) (key value : string) : M unit :=
  λ h, match m with
       | None => Panic NilMapAssignment
       | Some l => match stringMaps h !! l with
                   | Some entries =>
                       Ok (tt, {| tlsConfigs := tlsConfigs h;
                                  transports := transports h;
                                  stringMaps :=
                                    <[l := <[key := value]> entries]> (stringMaps h) |})
                   | None => Panic InvalidAddress
                   end
       end.

(** *** Inputs used in examples *)

(** A network in which every connection is refused, and an implementation
    of [http.RoundTripper] that answers 200 and leaves the request as it
    got it. *)
Definition refusingNetwork
    (h : Heap) (t : http.Transport) (r : http.Request) : http.Request * Reply :=
  (r, (None, Some "connection refused")).

Definition okResponse : http.Response :=
  {| http.StatusCode := 200; http.RespHeader := ∅; http.RespBody := "" |}.

Definition echoRoundTripper : RoundTripper :=
  otherRoundTripper (λ r, (r, (Some okResponse, None))).

Definition getRequest (hd : http.Header) : http.Request :=
  {| http.Method := "GET"; http.URL := "https://example.com/";
     http.Header_ := hd; http.Body := "" |}.

(** A heap whose only object is a header map for [Options], at address 1. *)
Definition heapWithHeaders (m : gmap string string) : Heap :=
  {| tlsConfigs := ∅; transports := ∅; stringMaps := {[ 1%positive := m ]} |}.

Definition optionsAt1 : Options :=
  {| AddMissingHeaders := true; Headers := Some 1%positive |}.

(** A heap with one transport, at address 1, whose TLS configuration, at
    address 1, skips certificate verification and names a server. *)
Definition insecureConfig : tls.Config :=
  {| tls.CurvePreferences := [tls.X25519]; tls.InsecureSkipVerify := true;
     tls.ServerName := "internal.example"; tls.MinVersion := 771;
     tls.MaxVersion := 772; tls.NextProtos := ["h2"] |}.

Definition heapWithTransport : Heap :=
  {| tlsConfigs := {[ 1%positive := insecureConfig ]};
     transports :=
       {[ 1%positive :=
            {| http.TLSClientConfig := Some 1%positive;
               http.DisableKeepAlives := true;
               http.DisableCompression := false;
               http.MaxIdleConns := 10 |} ]};
     stringMaps := ∅ |}.

(** *** Notions used to state the properties of the merge *)

(** The entries [Set] writes for a map of options: each value as a list of
    one element. *)
Definition headerValues (m : gmap string string) : http.Header :=
  (λ v, [v]) <$> m.

(** Every configured name is written in its canonical form. *)
Definition canonicalNames (m : gmap string string) : Prop :=
  ∀ k, is_Some (m !! k) → canon k = k.

(** No two configured names have the same canonical form. *)
Definition distinctCanonicalNames (m : gmap string string) : Prop :=
  ∀ k1 k2, is_Some (m !! k1) → is_Some (m !! k2) →
           canon k1 = canon k2 → k1 = k2.


(** [n] decorators with the same options around a round tripper, as [n]
    calls [AddCloudFlareByPass(rt, o)] in a row build them. *)
Fixpoint wrapTimes (n : nat) (o : Options) (rt : RoundTripper) : RoundTripper :=
  match n with
  | O => rt
  | S n' => cloudFlarePtr (mkCloudFlareRoundTripper (wrapTimes n' o rt) o)
  end.

(** A heap with two header maps for [Options], at addresses 1 and 2, and
    options that hold them. *)
Definition heapWithTwoHeaders (m1 m2 : gmap string string) : Heap :=
  {| tlsConfigs := ∅; transports := ∅;
     stringMaps := <[1%positive := m1]> {[ 2%positive := m2 ]} |}.

Definition optionsAt2 : Options :=
  {| AddMissingHeaders := true; Headers := Some 2%positive |}.

Definition outerHeaders : gmap string string :=
  <["Accept" := "outer"]> {[ "User-Agent" := "outer-agent" ]}.

Definition innerHeaders : gmap string string :=
  <["Accept" := "inner"]> {[ "Accept-Language" := "inner-language" ]}.

(** * Properties *)

(** ** Canonical header keys *)

Module textproto_facts.
Import textproto.

Example canon_accept :
  textproto.CanonicalMIMEHeaderKey "accept" = "Accept".
Proof. reflexivity. Qed.

Example canon_user_agent :
  textproto.CanonicalMIMEHeaderKey "uSER-aGENT" = "User-Agent".
Proof. reflexivity. Qed.

Example canon_with_space :
  textproto.CanonicalMIMEHeaderKey "accept language" = "accept language".
Proof. reflexivity. Qed.

Lemma canonByte_valid upper c :
  validHeaderFieldByte (canonByte upper c) = validHeaderFieldByte c.
Proof.
  destruct upper, c as [[] [] [] [] [] [] [] []]; vm_compute; reflexivity.
Qed.

Lemma canonByte_fixed upper c :
  canonByte upper (canonByte upper c) = canonByte upper c.
Proof.
  destruct upper, c as [[] [] [] [] [] [] [] []]; vm_compute; reflexivity.
Qed.

Lemma canonLoop_valid s : ∀ upper, allValid (canonLoop upper s) = allValid s.
Proof.
  induction s as [|c rest IH]; intros upper; simpl; [done|].
  by rewrite canonByte_valid, IH.
Qed.

Lemma canonLoop_fixed s :
  ∀ upper, canonLoop upper (canonLoop upper s) = canonLoop upper s.
Proof.
  induction s as [|c rest IH]; intros upper; simpl; [done|].
  by rewrite canonByte_fixed, IH.
Qed.

(** A canonical key is its own canonical form. *)
Lemma CanonicalMIMEHeaderKey_idemp s :
  CanonicalMIMEHeaderKey (CanonicalMIMEHeaderKey s) = CanonicalMIMEHeaderKey s.
Proof.
  unfold CanonicalMIMEHeaderKey.
  destruct (allValid s) eqn:Hv.
  - by rewrite canonLoop_valid, Hv, canonLoop_fixed.
  - by rewrite Hv.
Qed.

End textproto_facts.

(** ** The range loop *)

Lemma rangeOrder_perm choice m : rangeOrder choice m ≡ₚ map_to_list m.
Proof. unfold rangeOrder. by case_decide. Qed.

Lemma rangeOrder_NoDup_keys choice m : NoDup (rangeOrder choice m).*1.
Proof.
  rewrite (rangeOrder_perm choice m). apply NoDup_fst_map_to_list.
Qed.

Lemma elem_of_rangeOrder choice m k v :
  (k, v) ∈ rangeOrder choice m ↔ m !! k = Some v.
Proof. by rewrite (rangeOrder_perm choice m), elem_of_map_to_list. Qed.

(** Every order is a possible one: the loop may visit the map in any
    enumeration of it. *)
Lemma rangeOrder_follows choice m :
  choice ≡ₚ map_to_list m → rangeOrder choice m = choice.
Proof. intros Hp. unfold rangeOrder. by rewrite decide_True. Qed.

Section merge.

Implicit Types (hd : http.Header) (l : list (string * string)).

Lemma addMissingHeader_present hd k v :
  is_Some (hd !! k) → addMissingHeader hd (k, v) = hd.
Proof. intros [x Hx]. unfold addMissingHeader. simpl. by rewrite Hx. Qed.

Lemma addMissingHeader_absent hd k v :
  hd !! k = None → addMissingHeader hd (k, v) = <[canon k := [v]]> hd.
Proof. intros Hx. unfold addMissingHeader. simpl. by rewrite Hx. Qed.

(** The loop writes under canonical keys only. *)
Lemma addMissingHeader_lookup_other hd e c :
  canon c ≠ c → addMissingHeader hd e !! c = hd !! c.
Proof.
  intros Hc. destruct e as [k v]. unfold addMissingHeader, http.Header_Set.
  simpl. destruct (hd !! k); [done|].
  apply lookup_insert_ne. intros <-.
  by rewrite textproto_facts.CanonicalMIMEHeaderKey_idemp in Hc.
Qed.

(** One step never removes an entry. *)
Lemma addMissingHeader_is_Some hd e c :
  is_Some (hd !! c) → is_Some (addMissingHeader hd e !! c).
Proof.
  intros Hc. destruct e as [k v]. unfold addMissingHeader, http.Header_Set.
  simpl. destruct (hd !! k); [done|].
  destruct (decide (canon k = c)) as [->|Hne].
  - rewrite lookup_insert_eq. eauto.
  - by rewrite lookup_insert_ne.
Qed.

(** What one pass of the loop does to each key: it keeps the entry, or the
    entry was written for a configured name that was not a key of the map. *)
Lemma foldl_addMissingHeader_spec l : ∀ hd,
  (∀ c, canon c ≠ c → foldl addMissingHeader hd l !! c = hd !! c) ∧
  (∀ c, foldl addMissingHeader hd l !! c = hd !! c ∨
        ∃ k v, (k, v) ∈ l ∧ canon k = c ∧ hd !! k = None ∧
               foldl addMissingHeader hd l !! c = Some [v]).
Proof.
  induction l as [|[k v] l IH]; intros hd; simpl.
  { split; [done|]. intros c. by left. }
  destruct (IH (addMissingHeader hd (k, v))) as [IH1 IH2]. split.
  - intros c Hc. by rewrite IH1, addMissingHeader_lookup_other.
  - intros c. destruct (IH2 c) as [Heq|(k' & v' & Hin & Hk' & Hnone & Hres)].
    + destruct (hd !! k) as [x|] eqn:Hk.
      * rewrite addMissingHeader_present in Heq |- * by eauto. by left.
      * rewrite addMissingHeader_absent in Heq |- * by done.
        destruct (decide (canon k = c)) as [Hc|Hc].
        -- right. exists k, v. rewrite Heq. subst c.
           rewrite lookup_insert_eq. split_and!; [left|done..].
        -- left. by rewrite Heq, lookup_insert_ne.
    + right. exists k', v'. split_and!; [by right|done| |done].
      destruct (hd !! k') as [x|] eqn:Hx; [|done].
      assert (is_Some (addMissingHeader hd (k, v) !! k')) as [y Hy]
        by (apply addMissingHeader_is_Some; eauto).
      congruence.
Qed.

Lemma foldl_addMissingHeader_settles l : ∀ a b,
  NoDup l.*1 →
  (∀ k, canon k ≠ k → a !! k = b !! k) →
  (∀ c, settles l a b c) →
  foldl addMissingHeader a l = foldl addMissingHeader b l.
Proof.
  induction l as [|[k v] l IH]; intros a b Hnd Hother Hset; simpl.
  { apply map_eq. intros c.
    destruct (Hset c) as [?|[(?&?&Hin&_)|(?&Hin&_)]];
      [done|by apply elem_of_nil in Hin..]. }
  apply NoDup_cons in Hnd as [Hk Hnd]. simpl in Hk.
  apply IH; [done| |].
  { intros c Hc. rewrite !addMissingHeader_lookup_other by done. auto. }
  intros c. unfold settles in Hset |- *.
  destruct (decide (canon k = k)) as [Hcan|Hcan].
  - (* a canonical name *)
    destruct (decide (c = k)) as [->|Hck].
    + destruct (Hset k) as [Heq|[(k'&v'&Hin&Hk'&Hn'&Hnone)|(v'&Hin&Hb&Ha)]].
      * left. unfold addMissingHeader, http.Header_Set. simpl.
        rewrite <- Heq. destruct (a !! k) eqn:Ha; [congruence|].
        by rewrite Hcan, !lookup_insert_eq.
      * right; left. exists k', v'.
        apply elem_of_cons in Hin as [Heq|Hin]; [congruence|].
        split_and!; [done..|].
        unfold addMissingHeader, http.Header_Set. simpl.
        destruct (a !! k); [done|]. rewrite lookup_insert_ne; [done|].
        rewrite Hcan. congruence.
      * apply elem_of_cons in Hin as [Heq|Hin].
        -- simplify_eq. left.
           rewrite addMissingHeader_present by eauto.
           rewrite addMissingHeader_absent by done.
           by rewrite Hcan, lookup_insert_eq.
        -- exfalso. apply Hk, list_elem_of_fmap. by exists (k, v').
    + assert (∀ x : http.Header, addMissingHeader x (k, v) !! c = x !! c) as Hsame.
      { intros x. unfold addMissingHeader, http.Header_Set. simpl.
        destruct (x !! k); [done|]. rewrite lookup_insert_ne; [done|].
        by rewrite Hcan. }
      destruct (Hset c) as [Heq|[(k'&v'&Hin&Hk'&Hn'&Hnone)|(v'&Hin&Hb&Ha)]].
      * left. by rewrite !Hsame.
      * right; left. exists k', v'.
        apply elem_of_cons in Hin as [Heq|Hin]; [congruence|].
        split_and!; [done..|].
        unfold addMissingHeader, http.Header_Set. simpl.
        destruct (a !! k); [done|]. rewrite lookup_insert_ne; [done|].
        rewrite Hcan. congruence.
      * right; right. exists v'.
        apply elem_of_cons in Hin as [Heq|Hin]; [congruence|].
        by rewrite !Hsame.
  - (* a name that is not canonical: both runs agree on it *)
    pose proof (Hother k Hcan) as Hab.
    destruct (a !! k) as [x|] eqn:Ha.
    + rewrite !addMissingHeader_present by (rewrite <- ?Hab, ?Ha; eauto).
      destruct (Hset c) as [Heq|[(k'&v'&Hin&Hk'&Hn'&Hnone)|(v'&Hin&Hb&Ha')]].
      * by left.
      * right; left. exists k', v'.
        apply elem_of_cons in Hin as [Heq|Hin]; [congruence|done].
      * right; right. exists v'.
        apply elem_of_cons in Hin as [Heq|Hin]; [congruence|done].
    + rewrite !addMissingHeader_absent by congruence.
      destruct (decide (c = canon k)) as [->|Hck].
      { left. by rewrite !lookup_insert_eq. }
      rewrite !lookup_insert_ne by done.
      destruct (Hset c) as [Heq|[(k'&v'&Hin&Hk'&Hn'&Hnone)|(v'&Hin&Hb&Ha')]].
      * by left.
      * right; left. exists k', v'.
        apply elem_of_cons in Hin as [Heq|Hin]; [congruence|].
        split_and!; [done..|]. rewrite lookup_insert_ne; [done|].
        intros Heq. rewrite <- Heq in Hn'.
        by rewrite textproto_facts.CanonicalMIMEHeaderKey_idemp in Hn'.
      * right; right. exists v'.
        by apply elem_of_cons in Hin as [Heq|Hin]; [congruence|].
Qed.

(** Running the loop over the same map a second time, in any order, gives
    what one run in that second order gives. *)
Lemma foldl_addMissingHeader_twice l1 l2 hd :
  l1 ≡ₚ l2 → NoDup l2.*1 →
  foldl addMissingHeader (foldl addMissingHeader hd l1) l2
  = foldl addMissingHeader hd l2.
Proof.
  intros Hp Hnd. destruct (foldl_addMissingHeader_spec l1 hd) as [H1 H2].
  apply foldl_addMissingHeader_settles; [done|done|].
  intros c. destruct (H2 c) as [Heq|(k & v & Hin & Hk & Hnone & Hres)].
  { by left. }
  rewrite Hp in Hin.
  destruct (decide (canon k = k)) as [Hcan|Hcan].
  - right; right. exists v. rewrite <- Hk, Hcan in *. done.
  - right; left. exists k, v. split_and!; [done..|]. by rewrite H1.
Qed.

End merge.

(** ** The header merge of RoundTrip *)

Lemma readStringMap_heap p h m h' :
  readStringMap p h = Ok (m, h') → h' = h.
Proof.
  unfold readStringMap. destruct p as [l|]; [|congruence].
  destruct (stringMaps h !! l); congruence.
Qed.

(** With the flag set and the options' map readable, the merge is the range
    loop over the map, in the order of the run. *)
Lemma mergeHeaders_run o choice r h m :
  AddMissingHeaders o = true →
  readStringMap (Headers o) h = Ok (m, h) →
  mergeHeaders o choice r h
  = Ok (http.withHeader
          (foldl addMissingHeader (http.Header_ r) (rangeOrder choice m)) r, h).
Proof.
  intros Hflag Hread. unfold mergeHeaders. rewrite Hflag.
  unfold mbind, M_bind, bind. by rewrite Hread.
Qed.

Lemma mergeHeaders_off o choice r h :
  AddMissingHeaders o = false → mergeHeaders o choice r h = Ok (r, h).
Proof. intros Hflag. unfold mergeHeaders. by rewrite Hflag. Qed.

(** The merge reads the heap and leaves it as it is. *)
Lemma mergeHeaders_heap o choice r h r' h' :
  mergeHeaders o choice r h = Ok (r', h') → h' = h.
Proof.
  unfold mergeHeaders. destruct (AddMissingHeaders o); [|by intros [= _ ->]].
  unfold mbind, M_bind, bind.
  destruct (readStringMap (Headers o) h) as [[m h1]|] eqn:Hread; [|done].
  apply readStringMap_heap in Hread as ->. by intros [= _ ->].
Qed.

Lemma withHeader_withHeader hd1 hd2 r :
  http.withHeader hd2 (http.withHeader hd1 r) = http.withHeader hd2 r.
Proof. done. Qed.

(** Merging twice with the same options is merging once, in the order of
    the second run. *)
Lemma mergeHeaders_twice o choice1 choice2 r h :
  (r1 ← mergeHeaders o choice1 r; mergeHeaders o choice2 r1) h
  = mergeHeaders o choice2 r h.
Proof.
  unfold mbind at 1. unfold M_bind, bind.
  destruct (AddMissingHeaders o) eqn:Hflag.
  2: { by rewrite !mergeHeaders_off. }
  destruct (readStringMap (Headers o) h) as [[m h1]|p] eqn:Hread.
  - pose proof (readStringMap_heap _ _ _ _ Hread) as ->.
    rewrite !(mergeHeaders_run o _ _ h m) by done. simpl.
    rewrite withHeader_withHeader. do 2 f_equal.
    f_equal. apply foldl_addMissingHeader_twice.
    + by rewrite !rangeOrder_perm.
    + apply rangeOrder_NoDup_keys.
  - unfold mergeHeaders. rewrite Hflag.
    unfold mbind, M_bind, bind. by rewrite Hread.
Qed.

(** Every configured name is a key after the loop, as written or in its
    canonical form. *)
Lemma foldl_addMissingHeader_is_Some l : ∀ (hd : http.Header) c,
  is_Some (hd !! c) → is_Some (foldl addMissingHeader hd l !! c).
Proof.
  induction l as [|e l IH]; intros hd c Hc; simpl; [done|].
  by apply IH, addMissingHeader_is_Some.
Qed.

Lemma foldl_addMissingHeader_covers l : ∀ (hd : http.Header) k v,
  (k, v) ∈ l →
  is_Some (foldl addMissingHeader hd l !! k)
  ∨ is_Some (foldl addMissingHeader hd l !! canon k).
Proof.
  induction l as [|e l IH]; intros hd k v Hin; simpl.
  { by apply elem_of_nil in Hin. }
  apply elem_of_cons in Hin as [<-|Hin]; [|by eapply IH].
  destruct (hd !! k) as [x|] eqn:Hk.
  - left. apply foldl_addMissingHeader_is_Some.
    rewrite addMissingHeader_present; eauto.
  - right. apply foldl_addMissingHeader_is_Some.
    rewrite addMissingHeader_absent by done. rewrite lookup_insert_eq. eauto.
Qed.

(** The interface call on a decorator is the method of the source. *)
Lemma RoundTrip_cloudFlarePtr net ug choices r :
  RoundTrip net (cloudFlarePtr ug) choices r
  = cloudFlareRoundTripper_RoundTrip net (RoundTrip net) ug choices r.
Proof. done. Qed.

(** When every configured name is canonical, the merge only adds: an entry
    the request had keeps its value, and every configured name is a key
    afterwards. *)
Lemma mergeHeaders_only_adds_canonical o choice r h m :
  AddMissingHeaders o = true →
  readStringMap (Headers o) h = Ok (m, h) →
  (∀ k, is_Some (m !! k) → canon k = k) →
  ∃ hd',
    mergeHeaders o choice r h = Ok (http.withHeader hd' r, h)
    ∧ (∀ c x, http.Header_ r !! c = Some x → hd' !! c = Some x)
    ∧ (∀ k, is_Some (m !! k) → is_Some (hd' !! k)).
Proof.
  intros Hflag Hread Hcanon. eexists. split; [by apply mergeHeaders_run|].
  destruct (foldl_addMissingHeader_spec (rangeOrder choice m) (http.Header_ r))
    as [_ Hspec].
  split.
  - intros c x Hc. destruct (Hspec c) as [->|(k & v & Hin & Hk & Hnone & _)].
    + done.
    + apply elem_of_rangeOrder in Hin.
      rewrite Hcanon in Hk by eauto. congruence.
  - intros k [v Hk]. apply (elem_of_rangeOrder choice) in Hk.
    destruct (foldl_addMissingHeader_covers _ (http.Header_ r) _ _ Hk) as [?|Hc].
    + done.
    + rewrite Hcanon in Hc; [done|]. apply elem_of_rangeOrder in Hk. eauto.
Qed.

(** C1, as stated, fails: the request has [accept: foo], the options
    configure [Accept], a name that differs from it only in letter case, and
    the inner round tripper receives the request with [Accept] set. *)
Lemma C1_counterexample :
  RoundTrip refusingNetwork
    (cloudFlarePtr (mkCloudFlareRoundTripper echoRoundTripper optionsAt1))
    [] (getRequest {[ "accept" := ["foo"] ]})
    (heapWithHeaders {[ "Accept" := "text/html" ]})
  = Ok ((getRequest (<["Accept" := ["text/html"]]> {[ "accept" := ["foo"] ]}),
         (Some okResponse, None)),
        heapWithHeaders {[ "Accept" := "text/html" ]}).
Proof. vm_compute. reflexivity. Qed.

(** C1, amended: with [AddMissingHeaders] set, the presence check of the
    merge is an exact lookup of the configured name in the request's header
    map.  The merge writes an entry only on behalf of a configured name that
    is not, as written, a key of the map; and a configured name that is not
    a key, and whose canonical form is not a key either, has its header set
    under the canonical form, whatever keys differing in letter case the
    map holds. *)
Theorem C1_presence_check_is_exact o choice r h m :
  AddMissingHeaders o = true →
  readStringMap (Headers o) h = Ok (m, h) →
  ∃ hd',
    mergeHeaders o choice r h = Ok (http.withHeader hd' r, h)
    ∧ (∀ c, hd' !! c = http.Header_ r !! c
            ∨ ∃ k v, m !! k = Some v ∧ http.Header_ r !! k = None
                     ∧ canon k = c ∧ hd' !! c = Some [v])
    ∧ (∀ k v, m !! k = Some v →
              http.Header_ r !! k = None →
              http.Header_ r !! canon k = None →
              ∃ k' v', m !! k' = Some v' ∧ canon k' = canon k
                       ∧ hd' !! canon k = Some [v']).
Proof.
  intros Hflag Hread. eexists. split; [by apply mergeHeaders_run|].
  destruct (foldl_addMissingHeader_spec (rangeOrder choice m) (http.Header_ r))
    as [Hother Hspec].
  split.
  - intros c. destruct (Hspec c) as [Heq|(k & v & Hin & Hk & Hnone & Hres)].
    + by left.
    + right. exists k, v. by rewrite <- (elem_of_rangeOrder choice).
  - intros k v Hm Hk Hck.
    destruct (Hspec (canon k)) as [Heq|(k' & v' & Hin & Hk' & Hnone & Hres)].
    + exfalso. apply (elem_of_rangeOrder choice) in Hm.
      destruct (foldl_addMissingHeader_covers _ (http.Header_ r) _ _ Hm)
        as [[x Hx]|[x Hx]]; [|congruence].
      destruct (decide (canon k = k)) as [Hcan|Hcan]; [congruence|].
      rewrite Hother in Hx by done. congruence.
    + exists k', v'. by rewrite <- (elem_of_rangeOrder choice).
Qed.

Lemma C1_presence_check_is_exact_witness :
  ∃ hd',
    mergeHeaders optionsAt1 [] (getRequest {[ "accept" := ["foo"] ]})
      (heapWithHeaders {[ "Accept" := "text/html" ]})
    = Ok (http.withHeader hd' (getRequest {[ "accept" := ["foo"] ]}),
          heapWithHeaders {[ "Accept" := "text/html" ]})
    ∧ (∀ c, hd' !! c = http.Header_ (getRequest {[ "accept" := ["foo"] ]}) !! c
            ∨ ∃ k v, ({[ "Accept" := "text/html" ]} : gmap string string) !! k = Some v
                     ∧ http.Header_ (getRequest {[ "accept" := ["foo"] ]}) !! k = None
                     ∧ canon k = c ∧ hd' !! c = Some [v])
    ∧ (∀ k v, ({[ "Accept" := "text/html" ]} : gmap string string) !! k = Some v →
              http.Header_ (getRequest {[ "accept" := ["foo"] ]}) !! k = None →
              http.Header_ (getRequest {[ "accept" := ["foo"] ]}) !! canon k = None →
              ∃ k' v', ({[ "Accept" := "text/html" ]} : gmap string string) !! k' = Some v'
                       ∧ canon k' = canon k
                       ∧ hd' !! canon k = Some [v']).
Proof.
  apply (C1_presence_check_is_exact optionsAt1 []
           (getRequest {[ "accept" := ["foo"] ]})
           (heapWithHeaders {[ "Accept" := "text/html" ]})
           {[ "Accept" := "text/html" ]}); reflexivity.
Defined.

(** C3, at the failing input: the request has [User-Agent: custom] and the
    options configure the name [user-agent].  The name as written is not a
    key of the header map, so the loop calls [Set], which writes under the
    canonical name: the value the request had is replaced. *)
Lemma C3_existing_value_replaced :
  http.Header_ (getRequest {[ "User-Agent" := ["custom"] ]}) !! "User-Agent"
  = Some ["custom"]
  ∧ RoundTrip refusingNetwork
      (cloudFlarePtr (mkCloudFlareRoundTripper echoRoundTripper optionsAt1))
      [] (getRequest {[ "User-Agent" := ["custom"] ]})
      (heapWithHeaders {[ "user-agent" := "bot" ]})
    = Ok ((getRequest {[ "User-Agent" := ["bot"] ]}, (Some okResponse, None)),
          heapWithHeaders {[ "user-agent" := "bot" ]}).
Proof. split; vm_compute; reflexivity. Qed.

(** C4: with [AddMissingHeaders] unset the merge returns the request as it
    is, whatever the options' headers are, and RoundTrip hands that very
    request on: to the fallback transport when there is no inner round
    tripper, to the inner round tripper otherwise. *)
Theorem C4_flag_off_leaves_headers net inner o choices r h :
  AddMissingHeaders o = false →
  mergeHeaders o (hd [] choices) r h = Ok (r, h)
  ∧ RoundTrip net (cloudFlarePtr (mkCloudFlareRoundTripper inner o)) choices r h
    = (if isNil inner then fallbackRoundTrip net r h
       else RoundTrip net inner (tl choices) r h)
  ∧ (∀ impl, inner = otherRoundTripper impl →
       RoundTrip net (cloudFlarePtr (mkCloudFlareRoundTripper inner o)) choices r h
       = Ok (impl r, h)).
Proof.
  intros Hflag.
  assert (RoundTrip net (cloudFlarePtr (mkCloudFlareRoundTripper inner o)) choices r h
          = (if isNil inner then fallbackRoundTrip net r h
             else RoundTrip net inner (tl choices) r h)) as Hrt.
  { rewrite RoundTrip_cloudFlarePtr. unfold cloudFlareRoundTripper_RoundTrip.
    unfold mbind, M_bind, bind. simpl.
    rewrite mergeHeaders_off by done. by destruct (isNil inner). }
  split_and!; [by apply mergeHeaders_off|done|].
  intros impl ->. by rewrite Hrt.
Qed.

Lemma C4_flag_off_leaves_headers_witness :
  mergeHeaders {| AddMissingHeaders := false; Headers := Some 1%positive |}
    (hd [] []) (getRequest ∅) (heapWithHeaders defaultHeaders)
  = Ok (getRequest ∅, heapWithHeaders defaultHeaders)
  ∧ RoundTrip refusingNetwork
      (cloudFlarePtr
         (mkCloudFlareRoundTripper echoRoundTripper
            {| AddMissingHeaders := false; Headers := Some 1%positive |}))
      [] (getRequest ∅) (heapWithHeaders defaultHeaders)
    = (if isNil echoRoundTripper
       then fallbackRoundTrip refusingNetwork (getRequest ∅)
              (heapWithHeaders defaultHeaders)
       else RoundTrip refusingNetwork echoRoundTripper (tl []) (getRequest ∅)
              (heapWithHeaders defaultHeaders))
  ∧ (∀ impl, echoRoundTripper = otherRoundTripper impl →
       RoundTrip refusingNetwork
         (cloudFlarePtr
            (mkCloudFlareRoundTripper echoRoundTripper
               {| AddMissingHeaders := false; Headers := Some 1%positive |}))
         [] (getRequest ∅) (heapWithHeaders defaultHeaders)
       = Ok (impl (getRequest ∅), heapWithHeaders defaultHeaders)).
Proof.
  apply (C4_flag_off_leaves_headers refusingNetwork echoRoundTripper
           {| AddMissingHeaders := false; Headers := Some 1%positive |}
           [] (getRequest ∅) (heapWithHeaders defaultHeaders)).
  reflexivity.
Defined.

(** C8: a decorator with an inner round tripper returns what the inner
    round tripper returns for the request with the merged headers: the same
    outcome, so the same response and the same error.  In particular, for
    an inner implementation [impl], the reply is the reply of [impl]. *)
Theorem C8_inner_reply_unmodified net inner o choices r h m :
  isNil inner = false →
  readStringMap (Headers o) h = Ok (m, h) →
  ∃ r',
    mergeHeaders o (hd [] choices) r h = Ok (r', h)
    ∧ RoundTrip net (cloudFlarePtr (mkCloudFlareRoundTripper inner o)) choices r h
      = RoundTrip net inner (tl choices) r' h
    ∧ (∀ impl, inner = otherRoundTripper impl →
         RoundTrip net (cloudFlarePtr (mkCloudFlareRoundTripper inner o)) choices r h
         = Ok (impl r', h))
    ∧ (∀ r'' resp err h',
         RoundTrip net (cloudFlarePtr (mkCloudFlareRoundTripper inner o)) choices r h
         = Ok ((r'', (resp, err)), h')
         ↔ RoundTrip net inner (tl choices) r' h = Ok ((r'', (resp, err)), h')).
Proof.
  intros Hnil Hread.
  assert (∃ r', mergeHeaders o (hd [] choices) r h = Ok (r', h)) as [r' Hr'].
  { destruct (AddMissingHeaders o) eqn:Hflag.
    - eexists. by apply (mergeHeaders_run o _ r h m).
    - exists r. by apply mergeHeaders_off. }
  exists r'.
  assert (RoundTrip net (cloudFlarePtr (mkCloudFlareRoundTripper inner o)) choices r h
          = RoundTrip net inner (tl choices) r' h) as Hrt.
  { rewrite RoundTrip_cloudFlarePtr. unfold cloudFlareRoundTripper_RoundTrip.
    unfold mbind, M_bind, bind. simpl. by rewrite Hr', Hnil. }
  split_and!; [done|done| |].
  - intros impl ->. by rewrite Hrt.
  - intros r'' resp err h'. by rewrite Hrt.
Qed.

Lemma C8_inner_reply_unmodified_witness :
  ∃ r',
    mergeHeaders optionsAt1 (hd [] []) (getRequest ∅)
      (heapWithHeaders defaultHeaders)
    = Ok (r', heapWithHeaders defaultHeaders)
    ∧ RoundTrip refusingNetwork
        (cloudFlarePtr (mkCloudFlareRoundTripper echoRoundTripper optionsAt1))
        [] (getRequest ∅) (heapWithHeaders defaultHeaders)
      = RoundTrip refusingNetwork echoRoundTripper (tl []) r'
          (heapWithHeaders defaultHeaders)
    ∧ (∀ impl, echoRoundTripper = otherRoundTripper impl →
         RoundTrip refusingNetwork
           (cloudFlarePtr (mkCloudFlareRoundTripper echoRoundTripper optionsAt1))
           [] (getRequest ∅) (heapWithHeaders defaultHeaders)
         = Ok (impl r', heapWithHeaders defaultHeaders))
    ∧ (∀ r'' resp err h',
         RoundTrip refusingNetwork
           (cloudFlarePtr (mkCloudFlareRoundTripper echoRoundTripper optionsAt1))
           [] (getRequest ∅) (heapWithHeaders defaultHeaders)
         = Ok ((r'', (resp, err)), h')
         ↔ RoundTrip refusingNetwork echoRoundTripper (tl []) r'
             (heapWithHeaders defaultHeaders)
           = Ok ((r'', (resp, err)), h')).
Proof.
  apply (C8_inner_reply_unmodified refusingNetwork echoRoundTripper optionsAt1
           [] (getRequest ∅) (heapWithHeaders defaultHeaders) defaultHeaders);
    reflexivity.
Defined.

(** ** AddCloudFlareByPass *)

(** Wrapping a round tripper that is not a [*http.Transport], with options
    given: no object of the heap is touched. *)
Lemma AddCloudFlareByPass_given inner o rest h :
  (∀ trans, inner ≠ transportPtr trans) →
  AddCloudFlareByPass inner (Some (o :: rest)) h
  = Ok (cloudFlarePtr (mkCloudFlareRoundTripper inner o), h).
Proof.
  intros Hne. destruct inner; try done. by destruct (Hne trans).
Qed.

(** The TLS step on a transport of the heap: a new configuration object is
    made and the transport's slot is pointed at it. *)
Lemma AddCloudFlareByPass_transport a t options h :
  transports h !! a = Some t →
  options ≠ Some [] →
  ∃ o h',
    AddCloudFlareByPass (transportPtr (Some a)) options h
    = Ok (cloudFlarePtr (mkCloudFlareRoundTripper (transportPtr (Some a)) o), h')
    ∧ tlsConfigs h'
      = <[fresh (dom (tlsConfigs h)) :=
            tls.withCurvePreferences cloudFlareCurves tls.zeroConfig]> (tlsConfigs h)
    ∧ transports h'
      = <[a := http.withTLSClientConfig (Some (fresh (dom (tlsConfigs h)))) t]>
          (transports h).
Proof.
  intros Ht Hopt.
  unfold AddCloudFlareByPass, getCloudFlareTLSConfiguration, newConfig,
    setTLSClientConfig, mbind, M_bind, bind, mret, M_ret, ret. simpl.
  rewrite Ht. destruct options as [[|o rest]|]; [done| |]; simpl.
  - by eexists _, _.
  - by eexists _, _.
Qed.

Lemma transportTLS_installed (h h' : Heap) a t c cfg :
  tlsConfigs h' = <[c := cfg]> (tlsConfigs h) →
  transports h' = <[a := http.withTLSClientConfig (Some c) t]> (transports h) →
  transportTLS h' a = Some cfg.
Proof.
  intros Hc Ht. unfold transportTLS. rewrite Ht, lookup_insert_eq. simpl.
  by rewrite Hc, lookup_insert_eq.
Qed.


(** The fallback of RoundTrip: a new transport whose only setting is a new
    TLS configuration with the curve preferences. *)
Lemma fallbackRoundTrip_run net r h :
  let c := fresh (dom (tlsConfigs h)) in
  let t := http.withTLSClientConfig (Some c) http.zeroTransport in
  let h' := {| tlsConfigs :=
                 <[c := tls.withCurvePreferences cloudFlareCurves tls.zeroConfig]>
                   (tlsConfigs h);
               transports := <[fresh (dom (transports h)) := t]> (transports h);
               stringMaps := stringMaps h |} in
  fallbackRoundTrip net r h = Ok (net h' t r, h').
Proof.
  intros c t h'.
  unfold fallbackRoundTrip, getCloudFlareTLSConfiguration, newConfig,
    newTransport, readTransport, Transport_RoundTrip, mbind, M_bind, bind.
  simpl. by rewrite lookup_insert_eq.
Qed.





(** C5, at the failing input: a call that passes an empty, non-nil slice
    of options ([AddCloudFlareByPass(inner, opts...)] with [opts] of length
    0) panics, whatever the inner round tripper: the slice is not nil, so
    the code indexes [options[0]].  A nil [*http.Transport] held in the
    interface panics too, at the assignment of its TLS slot. *)
Theorem C5_empty_options_slice_panics :
  (∀ inner h, ∃ p, AddCloudFlareByPass inner (Some []) h = Panic p)
  ∧ AddCloudFlareByPass nilRoundTripper (Some []) emptyHeap
    = Panic IndexOutOfRange
  ∧ AddCloudFlareByPass echoRoundTripper (Some []) emptyHeap
    = Panic IndexOutOfRange
  ∧ AddCloudFlareByPass (transportPtr None) None emptyHeap
    = Panic NilPointerDereference.
Proof.
  split_and!; [|done..].
  intros inner h. destruct inner as [|[a|]| |]; try by eexists.
  unfold AddCloudFlareByPass, getCloudFlareTLSConfiguration, newConfig,
    setTLSClientConfig, mbind, M_bind, bind. simpl.
  destruct (transports h !! a); by eexists.
Qed.

(** C6: the configuration made by [getCloudFlareTLSConfiguration], the one
    a wrapped transport points to after AddCloudFlareByPass, and the one of
    the transport that RoundTrip makes when there is no inner round tripper
    all have the curve preferences P-256, P-384, P-521, X25519, in this
    order. *)
Theorem C6_curve_preferences net a t options o choices r h m :
  transports h !! a = Some t →
  options ≠ Some [] →
  readStringMap (Headers o) h = Ok (m, h) →
  (∃ c h' cfg,
     getCloudFlareTLSConfiguration h = Ok (c, h')
     ∧ tlsConfigs h' !! c = Some cfg
     ∧ tls.CurvePreferences cfg
       = [tls.CurveP256; tls.CurveP384; tls.CurveP521; tls.X25519])
  ∧ (∃ d h' cfg,
       AddCloudFlareByPass (transportPtr (Some a)) options h = Ok (d, h')
       ∧ transportTLS h' a = Some cfg
       ∧ tls.CurvePreferences cfg
         = [tls.CurveP256; tls.CurveP384; tls.CurveP521; tls.X25519])
  ∧ (∃ r' h' t' c cfg,
       RoundTrip net
         (cloudFlarePtr (mkCloudFlareRoundTripper nilRoundTripper o)) choices r h
       = Ok (net h' t' r', h')
       ∧ mergeHeaders o (hd [] choices) r h = Ok (r', h)
       ∧ http.TLSClientConfig t' = Some c
       ∧ tlsConfigs h' !! c = Some cfg
       ∧ tls.CurvePreferences cfg
         = [tls.CurveP256; tls.CurveP384; tls.CurveP521; tls.X25519]).
Proof.
  intros Ht Hopt Hread. split_and!.
  - eexists _, _, _. split; [reflexivity|]. simpl.
    by rewrite lookup_insert_eq.
  - destruct (AddCloudFlareByPass_transport a t options h Ht Hopt)
      as (o' & h' & Hrun & Hcfg & Htr).
    eexists _, h', _.
    split_and!; [exact Hrun|by eapply transportTLS_installed|reflexivity].
  - assert (∃ r', mergeHeaders o (hd [] choices) r h = Ok (r', h)) as [r' Hr'].
    { destruct (AddMissingHeaders o) eqn:Hflag.
      - eexists. by apply (mergeHeaders_run o _ r h m).
      - exists r. by apply mergeHeaders_off. }
    exists r'. eexists _, _, _, _. split_and!.
    + rewrite RoundTrip_cloudFlarePtr. unfold cloudFlareRoundTripper_RoundTrip.
      unfold mbind, M_bind, bind. simpl. rewrite Hr'.
      apply fallbackRoundTrip_run.
    + done.
    + reflexivity.
    + simpl. by rewrite lookup_insert_eq.
    + reflexivity.
Qed.

Lemma C6_curve_preferences_witness :
  (∃ c h' cfg,
     getCloudFlareTLSConfiguration heapWithTransport = Ok (c, h')
     ∧ tlsConfigs h' !! c = Some cfg
     ∧ tls.CurvePreferences cfg
       = [tls.CurveP256; tls.CurveP384; tls.CurveP521; tls.X25519])
  ∧ (∃ d h' cfg,
       AddCloudFlareByPass (transportPtr (Some 1%positive)) None heapWithTransport
       = Ok (d, h')
       ∧ transportTLS h' 1%positive = Some cfg
       ∧ tls.CurvePreferences cfg
         = [tls.CurveP256; tls.CurveP384; tls.CurveP521; tls.X25519])
  ∧ (∃ r' h' t' c cfg,
       RoundTrip refusingNetwork
         (cloudFlarePtr
            (mkCloudFlareRoundTripper nilRoundTripper
               {| AddMissingHeaders := true; Headers := None |}))
         [] (getRequest ∅) heapWithTransport
       = Ok (refusingNetwork h' t' r', h')
       ∧ mergeHeaders {| AddMissingHeaders := true; Headers := None |}
           (hd [] []) (getRequest ∅) heapWithTransport
         = Ok (r', heapWithTransport)
       ∧ http.TLSClientConfig t' = Some c
       ∧ tlsConfigs h' !! c = Some cfg
       ∧ tls.CurvePreferences cfg
         = [tls.CurveP256; tls.CurveP384; tls.CurveP521; tls.X25519]).
Proof.
  apply (C6_curve_preferences refusingNetwork 1%positive
           {| http.TLSClientConfig := Some 1%positive;
              http.DisableKeepAlives := true;
              http.DisableCompression := false;
              http.MaxIdleConns := 10 |}
           None {| AddMissingHeaders := true; Headers := None |}
           [] (getRequest ∅) heapWithTransport ∅);
    [reflexivity|discriminate|reflexivity].
Defined.

(** ** GetDefaultOptions *)

Lemma fresh_stringMap_unused (h : Heap) :
  stringMaps h !! fresh (dom (stringMaps h)) = None.
Proof. apply not_elem_of_dom, is_fresh. Qed.

(** C7: every call of GetDefaultOptions returns options with the flag set
    and a header map of exactly three entries, [Accept], [Accept-Language]
    and [User-Agent] with their literal values.  Two successive calls return
    two different maps with these entries, and an assignment through either
    map leaves the entries of the other as they were. *)
Theorem C7_default_options_independent h :
  ∃ m1 m2 h1 h2,
    GetDefaultOptions h
    = Ok ({| AddMissingHeaders := true; Headers := Some m1 |}, h1)
    ∧ GetDefaultOptions h1
      = Ok ({| AddMissingHeaders := true; Headers := Some m2 |}, h2)
    ∧ m1 ≠ m2
    ∧ readStringMap (Some m1) h1 = Ok (defaultHeaders, h1)
    ∧ readStringMap (Some m1) h2 = Ok (defaultHeaders, h2)
    ∧ readStringMap (Some m2) h2 = Ok (defaultHeaders, h2)
    ∧ size defaultHeaders = 3
    ∧ defaultHeaders !! "Accept"
      = Some "text/html,application/xhtml+xml,application/xml;q=0.9,image/webp,image/apng,*/*;q=0.8"
    ∧ defaultHeaders !! "Accept-Language" = Some "en-US,en;q=0.5"
    ∧ defaultHeaders !! "User-Agent"
      = Some "Mozilla/5.0 (Windows NT 10.0; Win64; x64) AppleWebKit/537.36 (KHTML, like Gecko) Chrome/127.0.0.0 Safari/537.36 Edg/127.0.0.0"
    ∧ (∀ key value, ∃ h3,
         assignStringMap (Some m1) key value h2 = Ok (tt, h3)
         ∧ readStringMap (Some m1) h3 = Ok (<[key := value]> defaultHeaders, h3)
         ∧ readStringMap (Some m2) h3 = Ok (defaultHeaders, h3))
    ∧ (∀ key value, ∃ h3,
         assignStringMap (Some m2) key value h2 = Ok (tt, h3)
         ∧ readStringMap (Some m2) h3 = Ok (<[key := value]> defaultHeaders, h3)
         ∧ readStringMap (Some m1) h3 = Ok (defaultHeaders, h3)).
Proof.
  set (m1 := fresh (dom (stringMaps h))).
  set (h1 := {| tlsConfigs := tlsConfigs h; transports := transports h;
                stringMaps := <[m1 := defaultHeaders]> (stringMaps h) |}).
  set (m2 := fresh (dom (stringMaps h1))).
  set (h2 := {| tlsConfigs := tlsConfigs h1; transports := transports h1;
                stringMaps := <[m2 := defaultHeaders]> (stringMaps h1) |}).
  assert (m1 ≠ m2) as Hne.
  { intros Heq. pose proof (fresh_stringMap_unused h1) as Hfresh.
    fold m2 in Hfresh. rewrite <- Heq in Hfresh. simpl in Hfresh.
    by rewrite lookup_insert_eq in Hfresh. }
  assert (stringMaps h2 !! m1 = Some defaultHeaders) as H21.
  { simpl. rewrite lookup_insert_ne by done. by rewrite lookup_insert_eq. }
  assert (stringMaps h2 !! m2 = Some defaultHeaders) as H22.
  { simpl. by rewrite lookup_insert_eq. }
  exists m1, m2, h1, h2. split_and!; try done.
  - unfold readStringMap. simpl. by rewrite lookup_insert_eq.
  - unfold readStringMap. by rewrite H21.
  - unfold readStringMap. by rewrite H22.
  - intros key value. eexists. unfold assignStringMap. rewrite H21.
    split; [reflexivity|]. unfold readStringMap. cbn [stringMaps].
    rewrite lookup_insert_eq. split; [done|].
    rewrite lookup_insert_ne by done. by rewrite H22.
  - intros key value. eexists. unfold assignStringMap. rewrite H22.
    split; [reflexivity|]. unfold readStringMap. cbn [stringMaps].
    rewrite lookup_insert_eq. split; [done|].
    rewrite lookup_insert_ne by done. by rewrite H21.
Qed.

(** ** Nested decorators *)

(** C9: wrapping a decorator again with the same options adds a layer and
    touches nothing else; the header merges of the two layers, whatever the
    orders in which their loops visit the options' map, leave the headers
    that the merge of one layer leaves (in the order of the layer that runs
    last), and the round trip through the two layers is the round trip
    through one. *)
Theorem C9_rewrapping_merges_once net rt o rest choices r h :
  AddCloudFlareByPass (cloudFlarePtr (mkCloudFlareRoundTripper rt o))
    (Some (o :: rest)) h
  = Ok (cloudFlarePtr
          (mkCloudFlareRoundTripper
             (cloudFlarePtr (mkCloudFlareRoundTripper rt o)) o), h)
  ∧ (r1 ← mergeHeaders o (hd [] choices) r;
     mergeHeaders o (hd [] (tl choices)) r1) h
    = mergeHeaders o (hd [] (tl choices)) r h
  ∧ RoundTrip net
      (cloudFlarePtr
         (mkCloudFlareRoundTripper
            (cloudFlarePtr (mkCloudFlareRoundTripper rt o)) o))
      choices r h
    = RoundTrip net (cloudFlarePtr (mkCloudFlareRoundTripper rt o))
        (tl choices) r h.
Proof.
  split_and!; [done|apply mergeHeaders_twice|].
  pose proof (mergeHeaders_twice o (hd [] choices) (hd [] (tl choices)) r h)
    as Htwice.
  rewrite (RoundTrip_cloudFlarePtr net
             (mkCloudFlareRoundTripper (cloudFlarePtr _) o)).
  unfold cloudFlareRoundTripper_RoundTrip at 1. cbn [inner options isNil].
  unfold mbind, M_bind, bind in Htwice |- *.
  destruct (mergeHeaders o (hd [] choices) r h) as [[r1 h1]|p] eqn:Hfirst.
  - apply mergeHeaders_heap in Hfirst as ->.
    rewrite !RoundTrip_cloudFlarePtr. unfold cloudFlareRoundTripper_RoundTrip.
    cbn [inner options]. unfold mbind, M_bind, bind. by rewrite Htwice.
  - rewrite RoundTrip_cloudFlarePtr. unfold cloudFlareRoundTripper_RoundTrip.
    cbn [inner options]. unfold mbind, M_bind, bind. by rewrite <- Htwice.
Qed.

(** C10: when several options are passed, the decorator is configured with
    the first: the outcome of the call, decorator and heap, does not depend
    on the options after the first, so no later RoundTrip does. *)
Theorem C10_first_options_used net inner o rest rest' choices r h :
  AddCloudFlareByPass inner (Some (o :: rest)) h
  = AddCloudFlareByPass inner (Some (o :: rest')) h
  ∧ (∀ d h', AddCloudFlareByPass inner (Some (o :: rest)) h = Ok (d, h') →
       d = cloudFlarePtr (mkCloudFlareRoundTripper inner o)
       ∧ RoundTrip net d choices r h'
         = cloudFlareRoundTripper_RoundTrip net (RoundTrip net)
             (mkCloudFlareRoundTripper inner o) choices r h')
  ∧ ((∀ trans, inner ≠ transportPtr trans) →
       AddCloudFlareByPass inner (Some (o :: rest)) h
       = Ok (cloudFlarePtr (mkCloudFlareRoundTripper inner o), h))
  ∧ (∀ a t, inner = transportPtr (Some a) → transports h !! a = Some t →
       ∃ h', AddCloudFlareByPass inner (Some (o :: rest)) h
             = Ok (cloudFlarePtr (mkCloudFlareRoundTripper inner o), h')).
Proof.
  split_and!.
  - done.
  - intros d h' Hrun.
    assert (d = cloudFlarePtr (mkCloudFlareRoundTripper inner o)) as ->; [|done].
    unfold AddCloudFlareByPass, mbind, M_bind, bind, mret, M_ret, ret in Hrun.
    destruct inner as [|trans| |]; simpl in Hrun; try congruence.
    destruct (setTLSClientConfig trans _ _) as [[[] h1]|]; congruence.
  - apply AddCloudFlareByPass_given.
  - intros a t -> Ht.
    unfold AddCloudFlareByPass, getCloudFlareTLSConfiguration, newConfig,
      setTLSClientConfig, mbind, M_bind, bind. simpl. rewrite Ht. by eexists.
Qed.

(** * Further properties of the code *)

(** ** The range loop, when configured names do not collide *)

Section merge_orders.

Implicit Types (hd : http.Header) (l : list (string * string)).

(** With names of different canonical forms, a name that is not a key of
    the request's map has its value written, and nothing writes over it. *)
Lemma foldl_addMissingHeader_written l : ∀ hd,
  NoDup l.*1 →
  (∀ k1 v1 k2 v2, (k1, v1) ∈ l → (k2, v2) ∈ l → canon k1 = canon k2 → k1 = k2) →
  ∀ k v, (k, v) ∈ l → hd !! k = None →
         foldl addMissingHeader hd l !! canon k = Some [v].
Proof.
  induction l as [|[k0 v0] l IH]; intros hd Hnd Hinj k v Hin Hk.
  { by apply elem_of_nil in Hin. }
  apply NoDup_cons in Hnd as [Hk0 Hnd]. simpl in Hk0. simpl.
  assert (∀ k' v', (k', v') ∈ l → k' ≠ k0) as Hfresh.
  { intros k' v' Hin' ->. apply Hk0, list_elem_of_fmap. by exists (k0, v'). }
  apply elem_of_cons in Hin as [Heq|Hin].
  - simplify_eq. rewrite addMissingHeader_absent by done.
    destruct (foldl_addMissingHeader_spec l (<[canon k0 := [v0]]> hd)) as [_ Hspec].
    destruct (Hspec (canon k0)) as [->|(k' & v' & Hin' & Hk' & _)].
    + by rewrite lookup_insert_eq.
    + exfalso. apply (Hfresh k' v' Hin').
      eapply (Hinj k' v' k0 v0); [by right|by left|done].
  - apply IH; [done| |done|].
    + intros k1 v1 k2 v2 H1 H2. apply (Hinj k1 v1 k2 v2); by right.
    + destruct (hd !! k0) eqn:Hk0'.
      * by rewrite addMissingHeader_present by eauto.
      * rewrite addMissingHeader_absent by done.
        rewrite lookup_insert_ne; [done|]. intros Heq.
        apply (Hfresh k v Hin). eapply (Hinj k v k0 v0); [by right|by left|].
        by rewrite <- Heq, textproto_facts.CanonicalMIMEHeaderKey_idemp.
Qed.

(** Then the order of the loop does not matter. *)
Lemma foldl_addMissingHeader_order l1 l2 hd :
  l1 ≡ₚ l2 → NoDup l1.*1 →
  (∀ k1 v1 k2 v2, (k1, v1) ∈ l1 → (k2, v2) ∈ l1 → canon k1 = canon k2 → k1 = k2) →
  foldl addMissingHeader hd l1 = foldl addMissingHeader hd l2.
Proof.
  intros Hp Hnd1 Hinj1.
  assert (NoDup l2.*1) as Hnd2 by by rewrite <- Hp.
  assert (∀ k1 v1 k2 v2, (k1, v1) ∈ l2 → (k2, v2) ∈ l2 →
                         canon k1 = canon k2 → k1 = k2) as Hinj2.
  { intros k1 v1 k2 v2. rewrite <- !Hp. apply (Hinj1 k1 v1 k2 v2). }
  apply map_eq. intros c.
  destruct (foldl_addMissingHeader_spec l1 hd) as [_ Hspec1].
  destruct (foldl_addMissingHeader_spec l2 hd) as [_ Hspec2].
  destruct (Hspec1 c) as [Heq1|(k & v & Hin & <- & Hk & Hres)].
  - destruct (Hspec2 c) as [Heq2|(k & v & Hin & <- & Hk & Hres)];
      [congruence|].
    rewrite Hres. rewrite <- Hp in Hin.
    by apply foldl_addMissingHeader_written.
  - rewrite Hres. symmetry. rewrite Hp in Hin.
    by apply foldl_addMissingHeader_written.
Qed.

End merge_orders.

Lemma distinctCanonicalNames_entries choice m :
  distinctCanonicalNames m →
  ∀ k1 v1 k2 v2, (k1, v1) ∈ rangeOrder choice m → (k2, v2) ∈ rangeOrder choice m →
                 canon k1 = canon k2 → k1 = k2.
Proof.
  intros Hinj k1 v1 k2 v2 H1%elem_of_rangeOrder H2%elem_of_rangeOrder.
  apply Hinj; eauto.
Qed.

Lemma canonicalNames_distinct m : canonicalNames m → distinctCanonicalNames m.
Proof.
  intros Hcanon k1 k2 H1 H2. by rewrite (Hcanon k1 H1), (Hcanon k2 H2).
Qed.

(** X1: when no two configured names have the same canonical form, the
    result of the header merge does not depend on the order in which the
    loop visits the options' map. *)
Theorem X1_merge_order_irrelevant o choice1 choice2 r h m :
  readStringMap (Headers o) h = Ok (m, h) →
  distinctCanonicalNames m →
  mergeHeaders o choice1 r h = mergeHeaders o choice2 r h.
Proof.
  intros Hread Hinj. destruct (AddMissingHeaders o) eqn:Hflag.
  2: { by rewrite !mergeHeaders_off. }
  rewrite !(mergeHeaders_run o _ r h m) by done. do 3 f_equal.
  apply foldl_addMissingHeader_order.
  - by rewrite !rangeOrder_perm.
  - apply rangeOrder_NoDup_keys.
  - by apply distinctCanonicalNames_entries.
Qed.

(** With canonical names the merge is a union that prefers the request's
    entries. *)
Lemma mergeHeaders_canonical_union o choice r h m :
  AddMissingHeaders o = true →
  readStringMap (Headers o) h = Ok (m, h) →
  canonicalNames m →
  mergeHeaders o choice r h
  = Ok (http.withHeader (http.Header_ r ∪ headerValues m) r, h).
Proof.
  intros Hflag Hread Hcanon.
  rewrite (mergeHeaders_run o _ r h m) by done. do 3 f_equal.
  apply map_eq. intros c.
  destruct (foldl_addMissingHeader_spec (rangeOrder choice m) (http.Header_ r))
    as [_ Hspec].
  destruct (http.Header_ r !! c) as [x|] eqn:Hc.
  - rewrite (lookup_union_Some_l _ _ _ x) by done.
    destruct (Hspec c) as [->|(k & v & Hin & Hk & Hnone & _)]; [done|].
    apply elem_of_rangeOrder in Hin. rewrite Hcanon in Hk by eauto. congruence.
  - rewrite lookup_union_r by done. unfold headerValues. rewrite lookup_fmap.
    destruct (m !! c) as [v|] eqn:Hm; simpl.
    + rewrite <- (Hcanon c) at 1 by eauto.
      apply foldl_addMissingHeader_written; [apply rangeOrder_NoDup_keys| |
        by apply elem_of_rangeOrder|done].
      by apply distinctCanonicalNames_entries, canonicalNames_distinct.
    + destruct (Hspec c) as [->|(k & v & Hin & Hk & Hnone & _)]; [done|].
      apply elem_of_rangeOrder in Hin. rewrite Hcanon in Hk by eauto. congruence.
Qed.

(** X2: when every configured name is canonical, the merge gives the
    request's header map completed by the configured headers: an entry of
    the request wins over the configured one, every entry of the request is
    kept, and each configured header that was missing is there with its
    value as the only element. *)
Theorem X2_merge_is_union o choice r h m :
  AddMissingHeaders o = true →
  readStringMap (Headers o) h = Ok (m, h) →
  canonicalNames m →
  mergeHeaders o choice r h
  = Ok (http.withHeader (http.Header_ r ∪ headerValues m) r, h).
Proof. apply mergeHeaders_canonical_union. Qed.

(** The names of the default options are canonical. *)
Lemma defaultHeaders_canonical : canonicalNames defaultHeaders.
Proof.
  assert (Forall (λ kv : string * string, canon kv.1 = kv.1)
            (map_to_list defaultHeaders)) as Hall.
  { assert (map_to_list defaultHeaders
            = [("User-Agent", default "" (defaultHeaders !! "User-Agent"));
               ("Accept-Language", default "" (defaultHeaders !! "Accept-Language"));
               ("Accept", default "" (defaultHeaders !! "Accept"))]) as ->
      by (vm_compute; reflexivity).
    repeat (apply List.Forall_cons; [vm_compute; reflexivity|]).
    apply List.Forall_nil. }
  intros k [v Hk]. apply elem_of_map_to_list in Hk.
  rewrite Forall_forall in Hall. apply (Hall (k, v) Hk).
Qed.

Lemma X1_merge_order_irrelevant_witness :
  mergeHeaders optionsAt1 [] (getRequest ∅) (heapWithHeaders defaultHeaders)
  = mergeHeaders optionsAt1 (reverse (map_to_list defaultHeaders))
      (getRequest ∅) (heapWithHeaders defaultHeaders).
Proof.
  apply (X1_merge_order_irrelevant optionsAt1 []
           (reverse (map_to_list defaultHeaders)) (getRequest ∅)
           (heapWithHeaders defaultHeaders) defaultHeaders).
  - reflexivity.
  - apply canonicalNames_distinct, defaultHeaders_canonical.
Defined.

Lemma X2_merge_is_union_witness :
  mergeHeaders optionsAt1 []
    (getRequest {[ "User-Agent" := ["custom"] ]})
    (heapWithHeaders defaultHeaders)
  = Ok (http.withHeader
          (http.Header_ (getRequest {[ "User-Agent" := ["custom"] ]})
           ∪ headerValues defaultHeaders)
          (getRequest {[ "User-Agent" := ["custom"] ]}),
        heapWithHeaders defaultHeaders).
Proof.
  apply (X2_merge_is_union optionsAt1 []
           (getRequest {[ "User-Agent" := ["custom"] ]})
           (heapWithHeaders defaultHeaders) defaultHeaders).
  - reflexivity.
  - reflexivity.
  - apply defaultHeaders_canonical.
Defined.

(** X3: whatever the options, the merge never removes an entry of the
    request's header map, never touches an entry whose key is not in
    canonical form, and leaves the method, the URL and the body of the
    request and the whole heap, the options' map included, as they were. *)
Theorem X3_merge_keeps_request o choice r h r' h' :
  mergeHeaders o choice r h = Ok (r', h') →
  h' = h
  ∧ http.Method r' = http.Method r
  ∧ http.URL r' = http.URL r
  ∧ http.Body r' = http.Body r
  ∧ (∀ c, is_Some (http.Header_ r !! c) → is_Some (http.Header_ r' !! c))
  ∧ (∀ c, canon c ≠ c → http.Header_ r' !! c = http.Header_ r !! c).
Proof.
  intros Hrun. pose proof (mergeHeaders_heap _ _ _ _ _ _ Hrun) as ->.
  split; [done|]. revert Hrun. unfold mergeHeaders.
  destruct (AddMissingHeaders o).
  2: { intros [= <-]. done. }
  unfold mbind, M_bind, bind.
  destruct (readStringMap (Headers o) h) as [[m h1]|]; [|done].
  intros [= <- _]. simpl. split_and!; try done.
  - intros c. apply foldl_addMissingHeader_is_Some.
  - intros c Hc.
    by destruct (foldl_addMissingHeader_spec (rangeOrder choice m)
                   (http.Header_ r)) as [-> _].
Qed.

Lemma X3_merge_keeps_request_witness :
  heapWithHeaders {[ "user-agent" := "bot" ]}
  = heapWithHeaders {[ "user-agent" := "bot" ]}
  ∧ http.Method (getRequest {[ "User-Agent" := ["bot"] ]})
    = http.Method (getRequest {[ "User-Agent" := ["custom"] ]})
  ∧ http.URL (getRequest {[ "User-Agent" := ["bot"] ]})
    = http.URL (getRequest {[ "User-Agent" := ["custom"] ]})
  ∧ http.Body (getRequest {[ "User-Agent" := ["bot"] ]})
    = http.Body (getRequest {[ "User-Agent" := ["custom"] ]})
  ∧ (∀ c, is_Some (http.Header_ (getRequest {[ "User-Agent" := ["custom"] ]}) !! c) →
          is_Some (http.Header_ (getRequest {[ "User-Agent" := ["bot"] ]}) !! c))
  ∧ (∀ c, canon c ≠ c →
          http.Header_ (getRequest {[ "User-Agent" := ["bot"] ]}) !! c
          = http.Header_ (getRequest {[ "User-Agent" := ["custom"] ]}) !! c).
Proof.
  apply (X3_merge_keeps_request optionsAt1 []
           (getRequest {[ "User-Agent" := ["custom"] ]})
           (heapWithHeaders {[ "user-agent" := "bot" ]})
           (getRequest {[ "User-Agent" := ["bot"] ]})
           (heapWithHeaders {[ "user-agent" := "bot" ]})).
  vm_compute. reflexivity.
Defined.

(** X4: with the flag set, after the merge every configured name has an
    entry in the request's header map, under the name as written or under
    its canonical form. *)
Theorem X4_configured_names_present o choice r h m :
  AddMissingHeaders o = true →
  readStringMap (Headers o) h = Ok (m, h) →
  ∃ r',
    mergeHeaders o choice r h = Ok (r', h)
    ∧ ∀ k, is_Some (m !! k) →
           is_Some (http.Header_ r' !! k)
           ∨ is_Some (http.Header_ r' !! canon k).
Proof.
  intros Hflag Hread. eexists. split; [by apply mergeHeaders_run|].
  intros k [v Hk]. simpl.
  apply (foldl_addMissingHeader_covers _ _ k v).
  by apply elem_of_rangeOrder.
Qed.

Lemma X4_configured_names_present_witness :
  ∃ r',
    mergeHeaders optionsAt1 [] (getRequest {[ "accept" := ["foo"] ]})
      (heapWithHeaders {[ "accept" := "text/html" ]})
    = Ok (r', heapWithHeaders {[ "accept" := "text/html" ]})
    ∧ ∀ k, is_Some (({[ "accept" := "text/html" ]} : gmap string string) !! k) →
           is_Some (http.Header_ r' !! k)
           ∨ is_Some (http.Header_ r' !! canon k).
Proof.
  apply (X4_configured_names_present optionsAt1 []
           (getRequest {[ "accept" := ["foo"] ]})
           (heapWithHeaders {[ "accept" := "text/html" ]})
           {[ "accept" := "text/html" ]}); reflexivity.
Defined.

(** X5: with the flag set and no header configured, the [Headers] map nil
    or empty, the loop has nothing to visit: the request is handed on as it
    came. *)
Theorem X5_no_configured_headers net inner o choices r h :
  AddMissingHeaders o = true →
  readStringMap (Headers o) h = Ok (∅, h) →
  mergeHeaders o (hd [] choices) r h = Ok (r, h)
  ∧ RoundTrip net (cloudFlarePtr (mkCloudFlareRoundTripper inner o)) choices r h
    = (if isNil inner then fallbackRoundTrip net r h
       else RoundTrip net inner (tl choices) r h).
Proof.
  intros Hflag Hread.
  assert (mergeHeaders o (hd [] choices) r h = Ok (r, h)) as Hmerge.
  { rewrite (mergeHeaders_run o _ r h ∅) by done.
    assert (rangeOrder (hd [] choices) (∅ : gmap string string) = []) as ->.
    { apply Permutation_nil_r. rewrite rangeOrder_perm.
      by rewrite map_to_list_empty. }
    by destruct r. }
  split; [done|].
  rewrite RoundTrip_cloudFlarePtr. unfold cloudFlareRoundTripper_RoundTrip.
  unfold mbind, M_bind, bind. simpl. rewrite Hmerge. by destruct (isNil inner).
Qed.

Lemma X5_no_configured_headers_witness :
  mergeHeaders {| AddMissingHeaders := true; Headers := None |} (hd [] [])
    (getRequest {[ "accept" := ["foo"] ]}) emptyHeap
  = Ok (getRequest {[ "accept" := ["foo"] ]}, emptyHeap)
  ∧ RoundTrip refusingNetwork
      (cloudFlarePtr
         (mkCloudFlareRoundTripper echoRoundTripper
            {| AddMissingHeaders := true; Headers := None |}))
      [] (getRequest {[ "accept" := ["foo"] ]}) emptyHeap
    = (if isNil echoRoundTripper
       then fallbackRoundTrip refusingNetwork
              (getRequest {[ "accept" := ["foo"] ]}) emptyHeap
       else RoundTrip refusingNetwork echoRoundTripper (tl [])
              (getRequest {[ "accept" := ["foo"] ]}) emptyHeap).
Proof.
  apply (X5_no_configured_headers refusingNetwork echoRoundTripper
           {| AddMissingHeaders := true; Headers := None |} []
           (getRequest {[ "accept" := ["foo"] ]}) emptyHeap); reflexivity.
Defined.

(** ** Wrapping and its effect on the heap *)


(** Wrapping, with no options, a round tripper that is not a transport:
    GetDefaultOptions makes the map of the decorator's options. *)
Lemma AddCloudFlareByPass_default inner h :
  (∀ trans, inner ≠ transportPtr trans) →
  AddCloudFlareByPass inner None h
  = Ok (cloudFlarePtr
          (mkCloudFlareRoundTripper inner
             {| AddMissingHeaders := true;
                Headers := Some (fresh (dom (stringMaps h))) |}),
        {| tlsConfigs := tlsConfigs h;
           transports := transports h;
           stringMaps :=
             <[fresh (dom (stringMaps h)) := defaultHeaders]> (stringMaps h) |}).
Proof.
  intros Hne. destruct inner; try done. by destruct (Hne trans).
Qed.

(** The round trip of a decorator over an implementation [impl]. *)
Lemma RoundTrip_over_impl net impl o choices r h r' :
  mergeHeaders o (hd [] choices) r h = Ok (r', h) →
  RoundTrip net
    (cloudFlarePtr (mkCloudFlareRoundTripper (otherRoundTripper impl) o))
    choices r h
  = Ok (impl r', h).
Proof.
  intros Hmerge. rewrite RoundTrip_cloudFlarePtr.
  unfold cloudFlareRoundTripper_RoundTrip, mbind, M_bind, bind. simpl.
  by rewrite Hmerge.
Qed.


(** X7: when the inner round tripper is not a [*http.Transport] (the nil
    interface, a decorator, even one that wraps a transport, or any other
    implementation), AddCloudFlareByPass skips the TLS step without a word:
    it returns a decorator and no transport and no TLS configuration of the
    heap is created or changed. *)
Theorem X7_TLS_step_skipped inner options h :
  (∀ trans, inner ≠ transportPtr trans) →
  options ≠ Some [] →
  ∃ o h',
    AddCloudFlareByPass inner options h
    = Ok (cloudFlarePtr (mkCloudFlareRoundTripper inner o), h')
    ∧ tlsConfigs h' = tlsConfigs h
    ∧ transports h' = transports h
    ∧ stringMaps h ⊆ stringMaps h'.
Proof.
  intros Hne Hopt. destruct options as [[|o rest]|]; [done| |].
  - exists o, h. by rewrite AddCloudFlareByPass_given.
  - eexists _, _. rewrite AddCloudFlareByPass_default by done.
    split_and!; [done..|]. simpl. apply insert_subseteq, fresh_stringMap_unused.
Qed.

Lemma X7_TLS_step_skipped_witness :
  ∃ o h',
    AddCloudFlareByPass
      (cloudFlarePtr
         (mkCloudFlareRoundTripper (transportPtr (Some 1%positive)) optionsAt1))
      None heapWithTransport
    = Ok (cloudFlarePtr
            (mkCloudFlareRoundTripper
               (cloudFlarePtr
                  (mkCloudFlareRoundTripper (transportPtr (Some 1%positive))
                     optionsAt1)) o), h')
    ∧ tlsConfigs h' = tlsConfigs heapWithTransport
    ∧ transports h' = transports heapWithTransport
    ∧ stringMaps heapWithTransport ⊆ stringMaps h'.
Proof.
  apply (X7_TLS_step_skipped
           (cloudFlarePtr
              (mkCloudFlareRoundTripper (transportPtr (Some 1%positive))
                 optionsAt1))
           None heapWithTransport); discriminate.
Defined.

(** ** The fallback transport *)

Lemma readStringMap_same_maps p (h h1 : Heap) m :
  stringMaps h1 = stringMaps h →
  readStringMap p h = Ok (m, h) → readStringMap p h1 = Ok (m, h1).
Proof.
  intros Heq. unfold readStringMap. rewrite Heq.
  destruct p as [l|]; [|by intros [= <-]].
  destruct (stringMaps h !! l); [|done]. by intros [= <-].
Qed.

Lemma mergeHeaders_total o choice r h m :
  readStringMap (Headers o) h = Ok (m, h) →
  ∃ r', mergeHeaders o choice r h = Ok (r', h).
Proof.
  intros Hread. destruct (AddMissingHeaders o) eqn:Hflag.
  - eexists. by apply (mergeHeaders_run o _ r h m).
  - exists r. by apply mergeHeaders_off.
Qed.

(** The round trip of a decorator without inner round tripper. *)
Lemma RoundTrip_fallback net o choices r h r' :
  mergeHeaders o (hd [] choices) r h = Ok (r', h) →
  RoundTrip net (cloudFlarePtr (mkCloudFlareRoundTripper nilRoundTripper o))
    choices r h
  = fallbackRoundTrip net r' h.
Proof.
  intros Hmerge. rewrite RoundTrip_cloudFlarePtr.
  unfold cloudFlareRoundTripper_RoundTrip, mbind, M_bind, bind. simpl.
  by rewrite Hmerge.
Qed.

(** X8: a decorator without inner round tripper makes a new transport and
    a new TLS configuration at every RoundTrip: two successive calls send
    their requests through two different transports, with two different
    configurations, and the transport of the first call is still in the
    heap, unused, after the second. *)
Theorem X8_fallback_transport_per_call net o choices1 choices2 r1 r2 h m :
  readStringMap (Headers o) h = Ok (m, h) →
  ∃ r1' r2' h1 h2 p1 p2 t1 t2,
    mergeHeaders o (hd [] choices1) r1 h = Ok (r1', h)
    ∧ RoundTrip net
        (cloudFlarePtr (mkCloudFlareRoundTripper nilRoundTripper o))
        choices1 r1 h
      = Ok (net h1 t1 r1', h1)
    ∧ mergeHeaders o (hd [] choices2) r2 h1 = Ok (r2', h1)
    ∧ RoundTrip net
        (cloudFlarePtr (mkCloudFlareRoundTripper nilRoundTripper o))
        choices2 r2 h1
      = Ok (net h2 t2 r2', h2)
    ∧ transports h !! p1 = None
    ∧ transports h1 !! p1 = Some t1
    ∧ transports h1 !! p2 = None
    ∧ transports h2 !! p2 = Some t2
    ∧ transports h2 !! p1 = Some t1
    ∧ p1 ≠ p2
    ∧ http.TLSClientConfig t1 ≠ http.TLSClientConfig t2.
Proof.
  intros Hread.
  destruct (mergeHeaders_total o (hd [] choices1) r1 h m Hread) as [r1' Hr1].
  set (c1 := fresh (dom (tlsConfigs h))).
  set (p1 := fresh (dom (transports h))).
  set (t1 := http.withTLSClientConfig (Some c1) http.zeroTransport).
  set (h1 := {| tlsConfigs :=
                  <[c1 := tls.withCurvePreferences cloudFlareCurves tls.zeroConfig]>
                    (tlsConfigs h);
                transports := <[p1 := t1]> (transports h);
                stringMaps := stringMaps h |}).
  assert (readStringMap (Headers o) h1 = Ok (m, h1)) as Hread1
    by by apply (readStringMap_same_maps _ h).
  destruct (mergeHeaders_total o (hd [] choices2) r2 h1 m Hread1) as [r2' Hr2].
  set (c2 := fresh (dom (tlsConfigs h1))).
  set (p2 := fresh (dom (transports h1))).
  set (t2 := http.withTLSClientConfig (Some c2) http.zeroTransport).
  set (h2 := {| tlsConfigs :=
                  <[c2 := tls.withCurvePreferences cloudFlareCurves tls.zeroConfig]>
                    (tlsConfigs h1);
                transports := <[p2 := t2]> (transports h1);
                stringMaps := stringMaps h1 |}).
  assert (transports h1 !! p2 = None) as Hp2
    by apply not_elem_of_dom, is_fresh.
  assert (tlsConfigs h1 !! c2 = None) as Hc2
    by apply not_elem_of_dom, is_fresh.
  assert (p1 ≠ p2) as Hp.
  { intros Heq. rewrite <- Heq in Hp2. simpl in Hp2.
    by rewrite lookup_insert_eq in Hp2. }
  assert (c1 ≠ c2) as Hc.
  { intros Heq. rewrite <- Heq in Hc2. simpl in Hc2.
    by rewrite lookup_insert_eq in Hc2. }
  exists r1', r2', h1, h2, p1, p2, t1, t2. split_and!.
  - done.
  - rewrite (RoundTrip_fallback net o choices1 r1 h r1') by done.
    apply fallbackRoundTrip_run.
  - done.
  - rewrite (RoundTrip_fallback net o choices2 r2 h1 r2') by done.
    apply fallbackRoundTrip_run.
  - apply not_elem_of_dom, is_fresh.
  - simpl. by rewrite lookup_insert_eq.
  - done.
  - simpl. by rewrite lookup_insert_eq.
  - simpl. rewrite lookup_insert_ne by done. by rewrite lookup_insert_eq.
  - done.
  - simpl. congruence.
Qed.

Lemma X8_fallback_transport_per_call_witness :
  ∃ r1' r2' h1 h2 p1 p2 t1 t2,
    mergeHeaders optionsAt1 (hd [] []) (getRequest ∅)
      (heapWithHeaders defaultHeaders)
    = Ok (r1', heapWithHeaders defaultHeaders)
    ∧ RoundTrip refusingNetwork
        (cloudFlarePtr (mkCloudFlareRoundTripper nilRoundTripper optionsAt1))
        [] (getRequest ∅) (heapWithHeaders defaultHeaders)
      = Ok (refusingNetwork h1 t1 r1', h1)
    ∧ mergeHeaders optionsAt1 (hd [] []) (getRequest ∅) h1 = Ok (r2', h1)
    ∧ RoundTrip refusingNetwork
        (cloudFlarePtr (mkCloudFlareRoundTripper nilRoundTripper optionsAt1))
        [] (getRequest ∅) h1
      = Ok (refusingNetwork h2 t2 r2', h2)
    ∧ transports (heapWithHeaders defaultHeaders) !! p1 = None
    ∧ transports h1 !! p1 = Some t1
    ∧ transports h1 !! p2 = None
    ∧ transports h2 !! p2 = Some t2
    ∧ transports h2 !! p1 = Some t1
    ∧ p1 ≠ p2
    ∧ http.TLSClientConfig t1 ≠ http.TLSClientConfig t2.
Proof.
  apply (X8_fallback_transport_per_call refusingNetwork optionsAt1 [] []
           (getRequest ∅) (getRequest ∅) (heapWithHeaders defaultHeaders)
           defaultHeaders).
  reflexivity.
Defined.

(** ** What a round trip does to the heap *)




(** ** The options of a decorator *)

(** X10: the decorator keeps the options it was given, and these hold the
    caller's map, not a copy of it: a header the caller assigns in that map
    after the wrap is among the headers the next RoundTrip merges. *)
Theorem X10_options_map_shared net impl o rest l m key value choices r h :
  AddMissingHeaders o = true →
  Headers o = Some l →
  stringMaps h !! l = Some m →
  ∃ d h2,
    AddCloudFlareByPass (otherRoundTripper impl) (Some (o :: rest)) h = Ok (d, h)
    ∧ assignStringMap (Headers o) key value h = Ok (tt, h2)
    ∧ RoundTrip net d choices r h2
      = Ok (impl (http.withHeader
                    (foldl addMissingHeader (http.Header_ r)
                       (rangeOrder (hd [] choices) (<[key := value]> m))) r),
            h2).
Proof.
  intros Hflag Hl Hm. eexists _, _. split_and!.
  - by apply AddCloudFlareByPass_given.
  - unfold assignStringMap. by rewrite Hl, Hm.
  - apply RoundTrip_over_impl, mergeHeaders_run; [done|].
    unfold readStringMap. rewrite Hl. simpl. by rewrite lookup_insert_eq.
Qed.

Lemma X10_options_map_shared_witness :
  ∃ d h2,
    AddCloudFlareByPass echoRoundTripper (Some [optionsAt1])
      (heapWithHeaders ∅)
    = Ok (d, heapWithHeaders ∅)
    ∧ assignStringMap (Headers optionsAt1) "Accept" "text/html"
        (heapWithHeaders ∅)
      = Ok (tt, h2)
    ∧ RoundTrip refusingNetwork d [] (getRequest ∅) h2
      = Ok ((λ r, (r, (Some okResponse, None)))
              (http.withHeader
                 (foldl addMissingHeader (http.Header_ (getRequest ∅))
                    (rangeOrder (hd [] []) (<["Accept" := "text/html"]> ∅)))
                 (getRequest ∅)),
            h2).
Proof.
  apply (X10_options_map_shared refusingNetwork
           (λ r, (r, (Some okResponse, None))) optionsAt1 [] 1%positive ∅
           "Accept" "text/html" [] (getRequest ∅) (heapWithHeaders ∅));
    reflexivity.
Defined.

(** X11: two nested decorators with different options, all names being
    canonical: the outer decorator merges first, so for a header that both
    configure an inner implementation receives the value of the outer one,
    and a header of the request wins over both. *)
Theorem X11_outer_options_win net impl o1 o2 choices r h m1 m2 :
  AddMissingHeaders o1 = true →
  AddMissingHeaders o2 = true →
  readStringMap (Headers o1) h = Ok (m1, h) →
  readStringMap (Headers o2) h = Ok (m2, h) →
  canonicalNames m1 →
  canonicalNames m2 →
  RoundTrip net
    (cloudFlarePtr
       (mkCloudFlareRoundTripper
          (cloudFlarePtr (mkCloudFlareRoundTripper (otherRoundTripper impl) o2))
          o1))
    choices r h
  = Ok (impl (http.withHeader
                (http.Header_ r ∪ headerValues m1 ∪ headerValues m2) r), h).
Proof.
  intros Hf1 Hf2 Hr1 Hr2 Hc1 Hc2.
  rewrite RoundTrip_cloudFlarePtr.
  unfold cloudFlareRoundTripper_RoundTrip at 1. cbn [inner options isNil].
  unfold mbind, M_bind, bind.
  rewrite (mergeHeaders_canonical_union o1 _ r h m1) by done.
  apply RoundTrip_over_impl.
  by rewrite (mergeHeaders_canonical_union o2 _ _ h m2).
Qed.

Lemma canonicalNames_empty : canonicalNames ∅.
Proof. intros k [v Hk]. by rewrite lookup_empty in Hk. Qed.

Lemma canonicalNames_insert k v m :
  canon k = k → canonicalNames m → canonicalNames (<[k := v]> m).
Proof.
  intros Hk Hm k' [v' Hk']. apply lookup_insert_Some in Hk' as [[<- _]|[_ Hk']].
  - done.
  - apply Hm. eauto.
Qed.

(** The request sets [User-Agent]; the outer options configure [Accept] and
    [User-Agent], the inner ones [Accept] and [Accept-Language].  The inner
    implementation receives the request's [User-Agent], the outer [Accept]
    and the inner [Accept-Language]. *)
Lemma X11_outer_options_win_witness :
  RoundTrip refusingNetwork
    (cloudFlarePtr
       (mkCloudFlareRoundTripper
          (cloudFlarePtr
             (mkCloudFlareRoundTripper
                (otherRoundTripper (λ r, (r, (Some okResponse, None))))
                optionsAt2))
          optionsAt1))
    [] (getRequest {[ "User-Agent" := ["custom"] ]})
    (heapWithTwoHeaders outerHeaders innerHeaders)
  = Ok ((λ r, (r, (Some okResponse, None)))
          (http.withHeader
             (http.Header_ (getRequest {[ "User-Agent" := ["custom"] ]})
              ∪ headerValues outerHeaders ∪ headerValues innerHeaders)
             (getRequest {[ "User-Agent" := ["custom"] ]})),
        heapWithTwoHeaders outerHeaders innerHeaders)
  ∧ http.Header_ (getRequest {[ "User-Agent" := ["custom"] ]})
    ∪ headerValues outerHeaders ∪ headerValues innerHeaders
    = <["User-Agent" := ["custom"]]>
        (<["Accept" := ["outer"]]>
           {[ "Accept-Language" := ["inner-language"] ]}).
Proof.
  split.
  - apply (X11_outer_options_win refusingNetwork
             (λ r, (r, (Some okResponse, None))) optionsAt1 optionsAt2
             [] (getRequest {[ "User-Agent" := ["custom"] ]})
             (heapWithTwoHeaders outerHeaders innerHeaders)
             outerHeaders innerHeaders).
    + reflexivity.
    + reflexivity.
    + reflexivity.
    + reflexivity.
    + repeat (apply canonicalNames_insert; [reflexivity|]).
      apply canonicalNames_empty.
    + repeat (apply canonicalNames_insert; [reflexivity|]).
      apply canonicalNames_empty.
  - vm_compute. reflexivity.
Defined.

(** ** Wrapping a transport and using it *)

(** X12: after AddCloudFlareByPass on a transport, a RoundTrip through the
    decorator is the round trip of that same transport, with its settings
    other than TLS as the caller had them and the new TLS configuration in
    its slot, on the request with the merged headers. *)
Theorem X12_wrapped_transport_round_trip net a t o rest choices r h m :
  transports h !! a = Some t →
  readStringMap (Headers o) h = Ok (m, h) →
  ∃ d h1 r' c,
    AddCloudFlareByPass (transportPtr (Some a)) (Some (o :: rest)) h = Ok (d, h1)
    ∧ mergeHeaders o (hd [] choices) r h1 = Ok (r', h1)
    ∧ transports h1 !! a = Some (http.withTLSClientConfig (Some c) t)
    ∧ tlsConfigs h1 !! c
      = Some (tls.withCurvePreferences cloudFlareCurves tls.zeroConfig)
    ∧ RoundTrip net d choices r h1
      = Ok (net h1 (http.withTLSClientConfig (Some c) t) r', h1).
Proof.
  intros Ht Hread.
  destruct (AddCloudFlareByPass_transport a t (Some (o :: rest)) h Ht)
    as (o' & h1 & Hrun & Hcfg & Htr); [done|].
  assert (o' = o ∧ stringMaps h1 = stringMaps h) as [-> Hmaps].
  { unfold AddCloudFlareByPass, getCloudFlareTLSConfiguration, newConfig,
      setTLSClientConfig, mbind, M_bind, bind, mret, M_ret, ret in Hrun.
    simpl in Hrun. rewrite Ht in Hrun. by simplify_eq. }
  pose proof (readStringMap_same_maps _ _ _ _ Hmaps Hread) as Hread1.
  destruct (mergeHeaders_total o (hd [] choices) r h1 m Hread1) as [r' Hr'].
  exists (cloudFlarePtr (mkCloudFlareRoundTripper (transportPtr (Some a)) o)),
    h1, r', (fresh (dom (tlsConfigs h))).
  assert (transports h1 !! a
          = Some (http.withTLSClientConfig (Some (fresh (dom (tlsConfigs h)))) t))
    as Ha by by rewrite Htr, lookup_insert_eq.
  split_and!; [done|done|done| |].
  - by rewrite Hcfg, lookup_insert_eq.
  - rewrite RoundTrip_cloudFlarePtr.
    unfold cloudFlareRoundTripper_RoundTrip, mbind, M_bind, bind.
    cbn [inner options isNil]. rewrite Hr'. simpl.
    unfold mbind, M_bind, bind, readTransport. by rewrite Ha.
Qed.

Lemma X12_wrapped_transport_round_trip_witness :
  ∃ d h1 r' c,
    AddCloudFlareByPass (transportPtr (Some 1%positive))
      (Some [{| AddMissingHeaders := true; Headers := None |}])
      heapWithTransport
    = Ok (d, h1)
    ∧ mergeHeaders {| AddMissingHeaders := true; Headers := None |}
        (hd [] []) (getRequest ∅) h1
      = Ok (r', h1)
    ∧ transports h1 !! 1%positive
      = Some (http.withTLSClientConfig (Some c)
                {| http.TLSClientConfig := Some 1%positive;
                   http.DisableKeepAlives := true;
                   http.DisableCompression := false;
                   http.MaxIdleConns := 10 |})
    ∧ tlsConfigs h1 !! c
      = Some (tls.withCurvePreferences cloudFlareCurves tls.zeroConfig)
    ∧ RoundTrip refusingNetwork d [] (getRequest ∅) h1
      = Ok (refusingNetwork h1
              (http.withTLSClientConfig (Some c)
                 {| http.TLSClientConfig := Some 1%positive;
                    http.DisableKeepAlives := true;
                    http.DisableCompression := false;
                    http.MaxIdleConns := 10 |})
              r', h1).
Proof.
  apply (X12_wrapped_transport_round_trip refusingNetwork 1%positive
           {| http.TLSClientConfig := Some 1%positive;
              http.DisableKeepAlives := true;
              http.DisableCompression := false;
              http.MaxIdleConns := 10 |}
           {| AddMissingHeaders := true; Headers := None |} []
           [] (getRequest ∅) heapWithTransport ∅); reflexivity.
Defined.

(** ** When the merge replaces a header of the request *)

Lemma foldl_addMissingHeader_sets l : ∀ (hd : http.Header) k v,
  (k, v) ∈ l → hd !! k = None →
  ∃ k' v', (k', v') ∈ l ∧ canon k' = canon k
           ∧ foldl addMissingHeader hd l !! canon k = Some [v'].
Proof.
  induction l as [|[k0 v0] l IH]; intros hd k v Hin Hk.
  { by apply elem_of_nil in Hin. }
  simpl.
  assert (∀ hd1 : http.Header, ∀ k1 v1,
            canon k1 = canon k → hd1 !! canon k = Some [v1] →
            (k1, v1) ∈ (k0, v0) :: l →
            ∃ k' v', (k', v') ∈ (k0, v0) :: l ∧ canon k' = canon k
                     ∧ foldl addMissingHeader hd1 l !! canon k = Some [v'])
    as Hkept.
  { intros hd1 k1 v1 Hk1 Hhd1 Hin1.
    destruct (foldl_addMissingHeader_spec l hd1) as [_ Hspec].
    destruct (Hspec (canon k)) as [Heq|(k' & v' & Hin' & Hk' & _ & Hres)].
    - exists k1, v1. by rewrite Heq.
    - exists k', v'. split_and!; [by right|done..]. }
  apply elem_of_cons in Hin as [Heq|Hin].
  - simplify_eq. rewrite addMissingHeader_absent by done.
    apply (Hkept _ k0 v0); [done|by rewrite lookup_insert_eq|by left].
  - destruct (addMissingHeader hd (k0, v0) !! k) as [x|] eqn:Hstep.
    + (* the name was written by the step: it is the canonical form of [k0] *)
      destruct (hd !! k0) eqn:Hk0.
      { rewrite addMissingHeader_present in Hstep by eauto. congruence. }
      rewrite addMissingHeader_absent in Hstep |- * by done.
      destruct (decide (canon k0 = k)) as [Hc|Hc].
      2: { rewrite lookup_insert_ne in Hstep by done. congruence. }
      assert (canon k = k) as Hcan
        by by rewrite <- Hc, textproto_facts.CanonicalMIMEHeaderKey_idemp.
      apply (Hkept _ k0 v0); [congruence| |by left].
      by rewrite Hcan, <- Hc, lookup_insert_eq.
    + destruct (IH _ k v Hin Hstep) as (k' & v' & Hin' & Hk' & Hres).
      exists k', v'. split_and!; [by right|done..].
Qed.

(** X13: with the flag set, for every configured name that is not, as
    written, a key of the request's header map, the entry under the
    canonical form of the name holds, after the merge, the value of a
    configured header of that canonical form, whatever the request had
    under that canonical form before. *)
Theorem X13_absent_name_is_set o choice r h m k v :
  AddMissingHeaders o = true →
  readStringMap (Headers o) h = Ok (m, h) →
  m !! k = Some v →
  http.Header_ r !! k = None →
  ∃ r' k' v',
    mergeHeaders o choice r h = Ok (r', h)
    ∧ m !! k' = Some v'
    ∧ canon k' = canon k
    ∧ http.Header_ r' !! canon k = Some [v'].
Proof.
  intros Hflag Hread Hm Hk.
  destruct (foldl_addMissingHeader_sets (rangeOrder choice m) (http.Header_ r) k v)
    as (k' & v' & Hin & Hk' & Hres); [by apply elem_of_rangeOrder|done|].
  eexists _, k', v'. split; [by apply mergeHeaders_run|].
  split_and!; [by apply (elem_of_rangeOrder choice)|done..].
Qed.

Lemma X13_absent_name_is_set_witness :
  ∃ r' k' v',
    mergeHeaders optionsAt1 [] (getRequest {[ "User-Agent" := ["custom"] ]})
      (heapWithHeaders {[ "user-agent" := "bot" ]})
    = Ok (r', heapWithHeaders {[ "user-agent" := "bot" ]})
    ∧ ({[ "user-agent" := "bot" ]} : gmap string string) !! k' = Some v'
    ∧ canon k' = canon "user-agent"
    ∧ http.Header_ r' !! canon "user-agent" = Some [v'].
Proof.
  apply (X13_absent_name_is_set optionsAt1 []
           (getRequest {[ "User-Agent" := ["custom"] ]})
           (heapWithHeaders {[ "user-agent" := "bot" ]})
           {[ "user-agent" := "bot" ]} "user-agent" "bot"); reflexivity.
Defined.

(** ** Wrapping many times *)

(** Two decorators with the same options are one, for the round trip. *)
Lemma RoundTrip_two_layers net rt o choices r h :
  RoundTrip net
    (cloudFlarePtr
       (mkCloudFlareRoundTripper
          (cloudFlarePtr (mkCloudFlareRoundTripper rt o)) o))
    choices r h
  = RoundTrip net (cloudFlarePtr (mkCloudFlareRoundTripper rt o))
      (tl choices) r h.
Proof.
  pose proof (mergeHeaders_twice o (hd [] choices) (hd [] (tl choices)) r h)
    as Htwice.
  rewrite (RoundTrip_cloudFlarePtr net
             (mkCloudFlareRoundTripper (cloudFlarePtr _) o)).
  unfold cloudFlareRoundTripper_RoundTrip at 1. cbn [inner options isNil].
  unfold mbind, M_bind, bind in Htwice |- *.
  destruct (mergeHeaders o (hd [] choices) r h) as [[r1 h1]|p] eqn:Hfirst.
  - apply mergeHeaders_heap in Hfirst as ->.
    rewrite !RoundTrip_cloudFlarePtr. unfold cloudFlareRoundTripper_RoundTrip.
    cbn [inner options]. unfold mbind, M_bind, bind. by rewrite Htwice.
  - rewrite RoundTrip_cloudFlarePtr. unfold cloudFlareRoundTripper_RoundTrip.
    cbn [inner options]. unfold mbind, M_bind, bind. by rewrite <- Htwice.
Qed.

(** X14: any number of decorators with the same options, one around the
    other, behave in a round trip as a single one: same outcome, same
    request handed to the round tripper they wrap. *)
Theorem X14_many_layers_as_one net rt o n : ∀ choices r h,
  RoundTrip net (wrapTimes (S n) o rt) choices r h
  = RoundTrip net (wrapTimes 1 o rt) (drop n choices) r h.
Proof.
  induction n as [|n IH]; intros choices r h.
  { by rewrite drop_0. }
  change (wrapTimes (S (S n)) o rt)
    with (cloudFlarePtr
            (mkCloudFlareRoundTripper
               (cloudFlarePtr (mkCloudFlareRoundTripper (wrapTimes n o rt) o)) o)).
  rewrite RoundTrip_two_layers.
  change (cloudFlarePtr (mkCloudFlareRoundTripper (wrapTimes n o rt) o))
    with (wrapTimes (S n) o rt).
  rewrite IH. destruct choices; cbn [tl]; [by rewrite !drop_nil|done].
Qed.
